(** * DemEntities: the entity / entity-field inspector lists

    A shallow embedding of [apps/haste-inspector/src/DemEntities.tsx]:
    the normalisation and ordering of an entity's fields, the field
    selection state kept by [EntityFieldList], the handle navigation of
    [handleFieldClick] and the two export handlers.

    React state is made explicit: every [useState] cell, [useRef] cell and
    shared atom is a field of a record, a handler is a function from the
    record to the record, and a functional state update
    [setX(prev => ...)] is applied to the state it is dispatched on. The
    updater of [updateSelection] also reads a ref that the handler writes
    after dispatching it, so for that one the moment at which React runs it
    is a parameter ([UpdaterRun]). *)

From Stdlib Require Import ZArith NArith List String Ascii Bool Lia.
From Stdlib Require Import Sorting.Sorted Sorting.Permutation.
From stdpp Require Import base decidable option list gmap sets strings pretty.

Set Warnings "-clear-no-such-hyp".



(** ** Records supplied by the decoding engine ([haste-wasm]) *)

(** [EntityLi]: one entry of [listEntities()]. *)
Record EntityLi := mkEntityLi {
  index : N;
  name : string
}.

(** [EntityFieldLi]: one entry of [listEntityFields(index)]. [path] is the
    numeric array, [namedPath] the array of labels. *)
Record EntityFieldLi := mkEntityFieldLi {
  path : list N;
  namedPath : list string;
  encodedAs : string;
  decodedAs : string;
  value : string
}.

(** The element type of [entityFieldList] ([WrappedEntityFieldLi]). *)
Record WrappedEntityFieldLi := mkWrapped {
  inner : EntityFieldLi;
  joinedPath : string;
  joinedNamedPath : string
}.

(** ** Small pieces of the JavaScript runtime *)

(** [parts.join(sep)]. *)
Fixpoint join (sep : string) (parts : list string) : string :=
  match parts with
  | [] => ""
  | [s] => s
  | s :: rest => s +:+ sep +:+ join sep rest
  end.

(** [" ".repeat(n)] generalised to any filler character. *)
Fixpoint repeatChar (c : ascii) (n : nat) : string :=
  match n with
  | O => ""
  | S n' => String c (repeatChar c n')
  end.

(** [s.padStart(width, c)] for a one-character filler [c]. *)
Definition padStart (width : nat) (c : ascii) (s : string) : string :=
  repeatChar c (width - String.length s) +:+ s.

(** [part.toString()] for a non-negative integer. *)
Definition toString (part : N) : string := pretty part.

(** ** Normalisation of the field list (the [useMemo] of [EntityFieldList]) *)

Module Normalize.

(** The body of the [for] loop of the comparator: [n] iterations remain,
    the loop variable is [i]. *)
Fixpoint compareLoop (a b : list N) (i n : nat) : Z :=
  match n with
  | O => (Z.of_nat (length a) - Z.of_nat (length b))%Z
  | S n' =>
      let x := nth i a 0%N in
      let y := nth i b 0%N in
      if negb (N.eqb x y) then (Z.of_N x - Z.of_N y)%Z
      else compareLoop a b (S i) n'
  end.

(** The comparator on path arrays. *)
Definition comparePaths (a b : list N) : Z :=
  compareLoop a b 0 (Nat.min (length a) (length b)).

(** The callback handed to [entityFieldList.sort]. *)
Definition compareFn (a b : WrappedEntityFieldLi) : Z :=
  comparePaths (path (inner a)) (path (inner b)).

(** [Array.prototype.sort] is a stable sort; with a comparator it keeps an
    element in front of the later ones it does not exceed. *)
Fixpoint insertSorted {A} (cmp : A -> A -> Z) (x : A) (l : list A) : list A :=
  match l with
  | [] => [x]
  | y :: l' => if (cmp x y <=? 0)%Z then x :: l else y :: insertSorted cmp x l'
  end.

Fixpoint sort {A} (cmp : A -> A -> Z) (l : list A) : list A :=
  match l with
  | [] => []
  | x :: l' => insertSorted cmp x (sort cmp l')
  end.

(** The mapping callback that wraps one engine record. *)
Definition wrapField (entityField : EntityFieldLi) : WrappedEntityFieldLi :=
  {| inner := entityField;
     joinedPath :=
       join "" (map (fun part => padStart 4 " " (toString part))
                    (path entityField));
     joinedNamedPath := join "." (namedPath entityField) |}.

(** [tmpEntityFieldList?.map(...)] followed by the in-place [sort]. *)
Definition normalize (tmpEntityFieldList : option (list EntityFieldLi))
  : option (list WrappedEntityFieldLi) :=
  match tmpEntityFieldList with
  | None => None
  | Some l => Some (sort compareFn (map wrapField l))
  end.

(** [joinedPathMaxLen]: the running maximum kept while mapping. *)
Definition joinedPathMaxLen (tmpEntityFieldList : option (list EntityFieldLi))
  : nat :=
  match tmpEntityFieldList with
  | None => 0%nat
  | Some l =>
      fold_left (fun m f => Nat.max m (String.length (joinedPath (wrapField f))))
                l 0%nat
  end.

End Normalize.



(** ** The order of §3, written from the specification *)

(** [path_lt p q]: at the first position where the two paths differ the
    element of [p] is the smaller number, or [p] is a strict prefix of [q]. *)
Inductive path_lt : list N -> list N -> Prop :=
| path_lt_prefix y q : path_lt [] (y :: q)
| path_lt_head x y p q : (x < y)%N -> path_lt (x :: p) (y :: q)
| path_lt_tail x p q : path_lt p q -> path_lt (x :: p) (x :: q).

(** The order the [sort] call leaves the list in. *)
Definition fieldLe (a b : WrappedEntityFieldLi) : Prop :=
  (Normalize.compareFn a b <= 0)%Z.

(** ** Shared application state and the engine interface *)

(** Modelled from the spec: the declaration of [demViewAtom] is in
    [./atoms]; §6 gives the current view the two values below. *)
Inductive DemView := View_entities | View_baselineEntities.

(** The parser handle. The accessors answer for the current tick; a list
    may be absent ([undefined]). *)
Record DemParser := mkDemParser {
  listEntities : option (list EntityLi);
  listBaselineEntities : option (list EntityLi);
  listEntityFields : N -> option (list EntityFieldLi);
  listBaselineEntityFields : N -> option (list EntityFieldLi)
}.

(** The modifier keys read from a [React.MouseEvent]. *)
Record MouseEvent := mkMouseEvent {
  shiftKey : bool;
  ctrlKey : bool;
  metaKey : bool
}.

(** When React runs the updater a handler hands to a state setter: inside
    the call (a component without pending updates has its next state
    computed eagerly), or while rendering, after the handler has returned. *)
Inductive UpdaterRun := AtDispatch | AtRender.

(** The atoms read by both components, the [useState] cell of [EntityList]
    and the [useState] / [useRef] cells of [EntityFieldList]. *)
Record State := mkState {
  demParser : option DemParser;
  demView : DemView;
  demTick : option Z;
  demSelectedEntityIndex : option N;
  filteredEntityList : option (list EntityLi);
  filteredEntityFieldList : option (list WrappedEntityFieldLi);
  selectedFieldPaths : gset string;
  lastSelectedIndexRef : option nat
}.

Definition setDemSelectedEntityIndex (f : option N -> option N) (st : State)
  : State :=
  mkState (demParser st) (demView st) (demTick st)
          (f (demSelectedEntityIndex st))
          (filteredEntityList st) (filteredEntityFieldList st)
          (selectedFieldPaths st) (lastSelectedIndexRef st).

Definition setFinalEntityList (l : option (list EntityLi)) (st : State)
  : State :=
  mkState (demParser st) (demView st) (demTick st) (demSelectedEntityIndex st)
          l (filteredEntityFieldList st)
          (selectedFieldPaths st) (lastSelectedIndexRef st).

Definition setFinalEntityFieldList (l : option (list WrappedEntityFieldLi))
  (st : State) : State :=
  mkState (demParser st) (demView st) (demTick st) (demSelectedEntityIndex st)
          (filteredEntityList st) l
          (selectedFieldPaths st) (lastSelectedIndexRef st).

Definition setSelectedFieldPaths (f : gset string -> gset string) (st : State)
  : State :=
  mkState (demParser st) (demView st) (demTick st) (demSelectedEntityIndex st)
          (filteredEntityList st) (filteredEntityFieldList st)
          (f (selectedFieldPaths st)) (lastSelectedIndexRef st).

Definition setLastSelectedIndexRef (i : option nat) (st : State) : State :=
  mkState (demParser st) (demView st) (demTick st) (demSelectedEntityIndex st)
          (filteredEntityList st) (filteredEntityFieldList st)
          (selectedFieldPaths st) i.

(** What [triggerDownload(filename, content, mimeType)] is called with. *)
Record Download := mkDownload {
  filename : string;
  content : string;
  mimeType : string
}.

(** The line feed of the template literals. *)
Definition LF : string := String "010" "".

(** ** [EntityList] *)

Module EntityList.

Record ExportEntityField := mkExportEntityField {
  ef_path : string;
  ef_pathSegments : list N;
  ef_encodedAs : string;
  ef_decodedAs : string;
  ef_value : string
}.

Record ExportEntity := mkExportEntity {
  ee_index : N;
  ee_name : string;
  ee_fields : list ExportEntityField
}.

(** The object literal serialised by [handleExportAllJson]. *)
Record ExportPayload := mkExportPayload {
  ep_tick : option Z;
  ep_view : string;
  ep_entities : list ExportEntity
}.

(** The [entityList] memo: the unfiltered list shown by the component. *)
Definition entityList (st : State) : option (list EntityLi) :=
  match demParser st with
  | None => None
  | Some p =>
      match demView st with
      | View_entities => listEntities p
      | View_baselineEntities => listBaselineEntities p
      end
  end.

(** [handleFilterUpdate] of the entity list. *)
Definition handleFilterUpdate (entries : option (list EntityLi))
  (searchCmpFn : option (string -> bool)) (st : State) : State :=
  match searchCmpFn with
  | Some f =>
      setFinalEntityList
        (option_map (List.filter (fun entry => f (name entry))) entries) st
  | None => setFinalEntityList entries st
  end.

Definition isBaselineView (st : State) : bool :=
  match demView st with View_baselineEntities => true | View_entities => false end.

Definition exportField (field : EntityFieldLi) : ExportEntityField :=
  {| ef_path := join "." (namedPath field);
     ef_pathSegments := path field;
     ef_encodedAs := encodedAs field;
     ef_decodedAs := decodedAs field;
     ef_value := value field |}.

Definition collectEntitiesForExport (demParser : option DemParser)
  (isBaselineView : bool) : list ExportEntity :=
  match demParser with
  | None => []
  | Some p =>
      let listEntities :=
        if isBaselineView then listBaselineEntities p else listEntities p in
      let listEntityFields :=
        if isBaselineView then listBaselineEntityFields p
        else listEntityFields p in
      match listEntities with
      | None => []
      | Some [] => []
      | Some entities =>
          map (fun entity =>
                 {| ee_index := index entity;
                    ee_name := name entity;
                    ee_fields :=
                      map exportField
                          (default [] (listEntityFields (index entity))) |})
              entities
      end
  end.

Section ExportAll.
(** [JSON.stringify(payload, null, 2)], supplied by the runtime. *)
Variable JSON_stringify : ExportPayload -> string.

Definition handleExportAllJson (baseFileName : string)
  (demParser : option DemParser) (demTick : option Z) (isBaselineView : bool)
  : option Download :=
  let entitiesForExport := collectEntitiesForExport demParser isBaselineView in
  if (length entitiesForExport =? 0)%nat then None
  else
    let payload :=
      {| ep_tick := demTick;
         ep_view := if isBaselineView then "baselineEntities" else "entities";
         ep_entities := entitiesForExport |} in
    let fileBase := baseFileName +:+ "-fields" in
    Some {| filename := fileBase +:+ ".json";
            content := JSON_stringify payload +:+ LF;
            mimeType := "application/json" |}.

(** The handler as the component binds it to its current state. *)
Definition exportAllJson (baseFileName : string) (st : State)
  : option Download :=
  handleExportAllJson baseFileName (demParser st) (demTick st)
                      (isBaselineView st).
End ExportAll.

(** [Number.MAX_SAFE_INTEGER]. *)
Definition MAX_SAFE_INTEGER : N := 9007199254740991.

(** [handleClick] of an entity row. [entidx] is the number read back from
    the [data-entidx] attribute; it is absent (the conversion gives NaN,
    which fails both comparisons) when the row carries no item. *)
Definition handleClick (entidx : option N) (st : State) : State :=
  match entidx with
  | Some entityIndex =>
      if (0 <=? entityIndex)%N && (entityIndex <=? MAX_SAFE_INTEGER)%N then
        setDemSelectedEntityIndex
          (fun prevEntityIndex =>
             if bool_decide (prevEntityIndex = Some entityIndex) then None
             else Some entityIndex)
          st
      else st
  | None => st
  end.

(** The [onClick] of the entity row rendered for [virtualItem.index = i]. *)
Definition onRowClick (i : nat) (st : State) : State :=
  handleClick (index <$> (filteredEntityList st ≫= fun l => l !! i)) st.

Definition hasEntities (st : State) : bool :=
  (0 <? length (default [] (entityList st)))%nat.

(** The [baseFileName] memo of the entity list; a tick that is a finite
    number is an integer. *)
Definition baseFileName (st : State) : string :=
  let prefix := if isBaselineView st then "baseline-entities" else "entities" in
  match demTick st with
  | Some tick => prefix +:+ "-" +:+ ("tick-" +:+ pretty tick)
  | None => prefix
  end.

Section ExportAllRaw.
(** The text the template literal gives for a tick that is not a finite
    number, and [String.prototype.trimEnd], both supplied by the runtime. *)
Variable nonFiniteTickText : string.
Variable trimEnd : string -> string.

Definition tickText (demTick : option Z) : string :=
  match demTick with
  | Some tick => pretty tick
  | None => nonFiniteTickText
  end.

(** The callback of [entitiesForExport.forEach]; [lines.push(x)] appends. *)
Definition pushEntity (lines : list string) (entity : ExportEntity)
  : list string :=
  let lines :=
    lines ++ ["entity " +:+ toString (ee_index entity) +:+ ": "
              +:+ ee_name entity] in
  let lines :=
    if (length (ee_fields entity) =? 0)%nat then lines ++ ["  (no fields)"]
    else
      fold_left
        (fun lines field =>
           lines ++ ["  " +:+ ef_path field +:+ ": " +:+ ef_value field])
        (ee_fields entity) lines in
  lines ++ [""].

(** The array [lines] when it is joined. *)
Definition exportAllRawLines (entitiesForExport : list ExportEntity)
  (demTick : option Z) (isBaselineView : bool) : list string :=
  let lines :=
    [ "view: " +:+ (if isBaselineView then "baselineEntities" else "entities");
      "tick: " +:+ tickText demTick;
      "" ] in
  fold_left pushEntity entitiesForExport lines.

Definition handleExportAllRaw (baseFileName : string)
  (demParser : option DemParser) (demTick : option Z) (isBaselineView : bool)
  : option Download :=
  let entitiesForExport := collectEntitiesForExport demParser isBaselineView in
  if (length entitiesForExport =? 0)%nat then None
  else
    let lines := exportAllRawLines entitiesForExport demTick isBaselineView in
    let fileBase := baseFileName +:+ "-fields" in
    Some {| filename := fileBase +:+ ".txt";
            content := trimEnd (join LF lines) +:+ LF;
            mimeType := "text/plain;charset=utf-8" |}.

(** The handler as the component binds it to its current state. *)
Definition exportAllRaw (st : State) : option Download :=
  handleExportAllRaw (baseFileName st) (demParser st) (demTick st)
                     (isBaselineView st).
End ExportAllRaw.

End EntityList.

(** ** [EntityFieldList] *)

Module EntityFieldList.

(** The [entityFieldList] memo: the sorted, unfiltered field list. *)
Definition entityFieldList (st : State) : option (list WrappedEntityFieldLi) :=
  match demSelectedEntityIndex st with
  | None => None
  | Some idx =>
      Normalize.normalize
        match demParser st with
        | None => None
        | Some p =>
            match demView st with
            | View_entities => listEntityFields p idx
            | View_baselineEntities => listBaselineEntityFields p idx
            end
        end
  end.

(** [handleFilterUpdate] of the field list. *)
Definition handleFilterUpdate (entries : option (list WrappedEntityFieldLi))
  (searchCmpFn : option (string -> bool)) (st : State) : State :=
  match searchCmpFn with
  | Some f =>
      setFinalEntityFieldList
        (option_map (List.filter (fun entry => f (joinedNamedPath entry)))
                    entries) st
  | None => setFinalEntityFieldList entries st
  end.

(** [prev => (prev.size ? new Set() : prev)]. *)
Definition clearUpdater (prev : gset string) : gset string :=
  if negb (size prev =? 0)%nat then ∅ else prev.

(** The effect on [demSelectedEntityIndex, demView]. *)
Definition resetEffect (st : State) : State :=
  setSelectedFieldPaths clearUpdater (setLastSelectedIndexRef None st).

(** One call of the [prev.forEach] callback; the accumulator is the pair
    of the locals [next] and [changed]. *)
Definition pruneStep (availablePaths : gset string)
  (acc : gset string * bool) (path : string) : gset string * bool :=
  if bool_decide (path ∈ availablePaths) then ({[path]} ∪ fst acc, snd acc)
  else (fst acc, true).

(** The updater passed to [setSelectedFieldPaths] by the pruning effect. *)
Definition pruneUpdater (availablePaths prev : gset string) : gset string :=
  if (size prev =? 0)%nat then prev
  else
    let acc := fold_left (pruneStep availablePaths) (elements prev) (∅, false) in
    if snd acc then fst acc else prev.

(** The effect on [filteredEntityFieldList]. *)
Definition pruneEffect (st : State) : State :=
  match filteredEntityFieldList st with
  | None | Some [] =>
      setSelectedFieldPaths clearUpdater (setLastSelectedIndexRef None st)
  | Some l =>
      let availablePaths : gset string :=
        list_to_set (map joinedNamedPath l) in
      setSelectedFieldPaths (pruneUpdater availablePaths) st
  end.

(** The [selectedFields] memo. *)
Definition selectedFields (st : State) : list WrappedEntityFieldLi :=
  match filteredEntityFieldList st with
  | None => []
  | Some l =>
      if (size (selectedFieldPaths st) =? 0)%nat then []
      else
        List.filter
          (fun item => bool_decide (joinedNamedPath item ∈ selectedFieldPaths st))
          l
  end.

Definition visibleFields (st : State) : list WrappedEntityFieldLi :=
  default [] (filteredEntityFieldList st).

Definition exportableFields (st : State) : list WrappedEntityFieldLi :=
  if (0 <? length (selectedFields st))%nat then selectedFields st
  else visibleFields st.

Definition counterValue (st : State) : nat :=
  if (0 <? length (selectedFields st))%nat then length (selectedFields st)
  else length (visibleFields st).

(** The [for (let i = start; i <= end; i++)] loop of the range branch:
    [n] iterations remain, the loop variable is [i]. *)
Fixpoint rangeLoop (l : list WrappedEntityFieldLi) (i n : nat)
  (next : gset string) : gset string :=
  match n with
  | O => next
  | S n' =>
      rangeLoop l (S i) n'
        match l !! i with
        | Some listItem => {[joinedNamedPath listItem]} ∪ next
        | None => next
        end
  end.

(** The updater passed to [setSelectedFieldPaths] by [updateSelection];
    [lastSelected] is the value of [lastSelectedIndexRef.current] it reads. *)
Definition selectionUpdater (event : MouseEvent) (lastSelected : option nat)
  (l : list WrappedEntityFieldLi) (itemIndex : nat) (path : string)
  (prev : gset string) : gset string :=
  match shiftKey event, lastSelected with
  | true, Some last =>
      let start := Nat.min last itemIndex in
      let end_ := Nat.max last itemIndex in
      rangeLoop l start (S end_ - start) ∅
  | _, _ =>
      if metaKey event || ctrlKey event then
        if bool_decide (path ∈ prev) then prev ∖ {[path]} else {[path]} ∪ prev
      else if (size prev =? 1)%nat && bool_decide (path ∈ prev) then prev
      else {[path]}
  end.

(** [updateSelection]. The updater reads [lastSelectedIndexRef.current]
    when it runs: at dispatch that is the anchor left by the previous click,
    at render the assignment that ends the handler has already stored
    [itemIndex] there. *)
Definition updateSelection (run : UpdaterRun) (event : MouseEvent)
  (itemIndex : nat) (path : string) (st : State) : State :=
  match filteredEntityFieldList st with
  | None | Some [] => st
  | Some l =>
      let current :=
        match run with
        | AtDispatch => lastSelectedIndexRef st
        | AtRender => Some itemIndex
        end in
      setLastSelectedIndexRef (Some itemIndex)
        (setSelectedFieldPaths
           (selectionUpdater event current l itemIndex path) st)
  end.

Definition handleFieldClick (run : UpdaterRun) (event : MouseEvent)
  (itemIndex : nat) (linkedEntityIndex : option N) (path : string)
  (st : State) : State :=
  let st' := updateSelection run event itemIndex path st in
  match linkedEntityIndex with
  | Some linked =>
      if negb (metaKey event) && negb (ctrlKey event) && negb (shiftKey event)
      then
        setDemSelectedEntityIndex
          (fun prevEntityIndex =>
             if bool_decide (prevEntityIndex = Some linked) then None
             else Some linked)
          st'
      else st'
  | None => st'
  end.

Definition handleExportRaw (baseFileName : string)
  (exportableFields : list WrappedEntityFieldLi) : option Download :=
  if (length exportableFields =? 0)%nat then None
  else
    let lines :=
      map (fun field => joinedNamedPath field +:+ ": " +:+ value (inner field))
          exportableFields in
    let fileBase := baseFileName +:+ "-fields" in
    Some {| filename := fileBase +:+ ".txt";
            content := join LF lines +:+ LF;
            mimeType := "text/plain;charset=utf-8" |}.

(** The handler as the component binds it to its current state. *)
Definition exportRaw (baseFileName : string) (st : State) : option Download :=
  handleExportRaw baseFileName (exportableFields st).

Section Rows.
(** The values of [haste-wasm] used by a row: the numbers of the runtime,
    unary [+] on a string, and the two handle functions. *)
Variable JsNumber : Type.
Variable unaryPlus : string -> JsNumber.
Variable isEHandleValid : JsNumber -> bool.
Variable eHandleToIndex : JsNumber -> N.

Definition handle (entityFieldItem : WrappedEntityFieldLi) : bool :=
  String.prefix "CHandle" (encodedAs (inner entityFieldItem)).

Definition handleValid (entityFieldItem : WrappedEntityFieldLi) : bool :=
  handle entityFieldItem
  && isEHandleValid (unaryPlus (value (inner entityFieldItem))).

Definition linkedEntIdx (entityFieldItem : WrappedEntityFieldLi) : option N :=
  if handleValid entityFieldItem
  then Some (eHandleToIndex (unaryPlus (value (inner entityFieldItem))))
  else None.

(** The [onClick] of the row rendered for [virtualItem.index = i]; there is
    no row, hence no handler, outside the filtered list. *)
Definition onClick (run : UpdaterRun) (event : MouseEvent) (i : nat)
  (st : State) : State :=
  match filteredEntityFieldList st with
  | None => st
  | Some l =>
      match l !! i with
      | None => st
      | Some entityFieldItem =>
          handleFieldClick run event i (linkedEntIdx entityFieldItem)
                           (joinedNamedPath entityFieldItem) st
      end
  end.
(** The states the component passes through: it mounts with an empty
    selection and no anchor; then a row is clicked, the filter bar delivers
    a list (after which the pruning effect runs), the atoms it reads change
    (after which the reset effect runs when the entity or the view did), or
    the entity list is filtered. *)
Inductive reachable : State -> Prop :=
| reach_mount st :
    selectedFieldPaths st = ∅ -> lastSelectedIndexRef st = None ->
    reachable st
| reach_click run event i st :
    reachable st -> reachable (onClick run event i st)
| reach_filter entries searchCmpFn st :
    reachable st ->
    reachable (pruneEffect (handleFilterUpdate entries searchCmpFn st))
| reach_tick parser tick st :
    reachable st ->
    reachable (mkState parser (demView st) tick (demSelectedEntityIndex st)
                 (filteredEntityList st) (filteredEntityFieldList st)
                 (selectedFieldPaths st) (lastSelectedIndexRef st))
| reach_context view idx st :
    reachable st ->
    reachable (resetEffect
                 (mkState (demParser st) view (demTick st) idx
                    (filteredEntityList st) (filteredEntityFieldList st)
                    (selectedFieldPaths st) (lastSelectedIndexRef st)))
| reach_entity_filter l st :
    reachable st -> reachable (setFinalEntityList l st).
End Rows.

Definition hasExportableFields (st : State) : bool :=
  (0 <? length (exportableFields st))%nat.

(** One element of the array serialised by [handleExportJson]. *)
Record ExportField := mkExportField {
  xf_path : string;
  xf_encodedAs : string;
  xf_decodedAs : string;
  xf_value : string
}.

Section ExportJson.
(** [JSON.stringify(payload, null, 2)], supplied by the runtime. *)
Variable JSON_stringify : list ExportField -> string.

Definition handleExportJson (baseFileName : string)
  (exportableFields : list WrappedEntityFieldLi) : option Download :=
  if (length exportableFields =? 0)%nat then None
  else
    let payload :=
      map (fun field =>
             {| xf_path := joinedNamedPath field;
                xf_encodedAs := encodedAs (inner field);
                xf_decodedAs := decodedAs (inner field);
                xf_value := value (inner field) |})
          exportableFields in
    let fileBase := baseFileName +:+ "-fields" in
    Some {| filename := fileBase +:+ ".json";
            content := JSON_stringify payload +:+ LF;
            mimeType := "application/json" |}.

Definition exportJson (baseFileName : string) (st : State) : option Download :=
  handleExportJson baseFileName (exportableFields st).
End ExportJson.

(** The [selectedEntity] memo. *)
Definition selectedEntity (st : State) : option EntityLi :=
  match demSelectedEntityIndex st with
  | None => None
  | Some idx =>
      let entities :=
        match demParser st with
        | None => None
        | Some p =>
            match demView st with
            | View_entities => listEntities p
            | View_baselineEntities => listBaselineEntities p
            end
        end in
      match entities with
      | None => None
      | Some l => List.find (fun entity => (index entity =? idx)%N) l
      end
  end.

(** The character class [a-z0-9-_] under the [i] flag. A string is read as
    its sequence of code units; a unit outside ASCII is outside the class. *)
Definition isNameChar (c : ascii) : bool :=
  (("a" <=? c) && (c <=? "z"))%char || (("A" <=? c) && (c <=? "Z"))%char
  || (("0" <=? c) && (c <=? "9"))%char
  || (c =? "-")%char || (c =? "_")%char.

Definition isUnderscore (c : ascii) : bool := (c =? "_")%char.

(** [.replace(/[^a-z0-9-_]+/gi, "_")]: [inRun] tells that the previous
    unit was part of the run being replaced. *)
Fixpoint replaceOtherRuns (inRun : bool) (s : string) : string :=
  match s with
  | EmptyString => EmptyString
  | String c s' =>
      if isNameChar c then String c (replaceOtherRuns false s')
      else if inRun then replaceOtherRuns true s'
      else String "_" (replaceOtherRuns true s')
  end.

(** [.replace(/_{2,}/g, "_")]: of a run of underscores the last one stays. *)
Fixpoint collapseUnderscores (s : string) : string :=
  match s with
  | EmptyString => EmptyString
  | String c s' =>
      if isUnderscore c then
        match s' with
        | String c' _ =>
            if isUnderscore c' then collapseUnderscores s'
            else String "_" (collapseUnderscores s')
        | EmptyString => String "_" EmptyString
        end
      else String c (collapseUnderscores s')
  end.

(** The [^_+] alternative of the last [replace]. *)
Fixpoint dropLeadingUnderscores (s : string) : string :=
  match s with
  | EmptyString => EmptyString
  | String c s' => if isUnderscore c then dropLeadingUnderscores s' else s
  end.

(** The [_+$] alternative of the last [replace]. *)
Fixpoint dropTrailingUnderscores (s : string) : string :=
  match s with
  | EmptyString => EmptyString
  | String c s' =>
      match dropTrailingUnderscores s' with
      | EmptyString => if isUnderscore c then EmptyString else String c EmptyString
      | r => String c r
      end
  end.

(** The three [replace] calls applied to [selectedEntityName]. *)
Definition sanitizeName (selectedEntityName : string) : string :=
  dropTrailingUnderscores
    (dropLeadingUnderscores
       (collapseUnderscores (replaceOtherRuns false selectedEntityName))).

(** A string in a condition: the empty string is falsy. *)
Definition truthy (s : string) : bool :=
  match s with EmptyString => false | String _ _ => true end.

(** The [baseFileName] memo of the field list. *)
Definition baseFileName (st : State) : string :=
  let prefix :=
    match demView st with
    | View_baselineEntities => "baseline-entity"
    | View_entities => "entity"
    end in
  match demSelectedEntityIndex st with
  | None => prefix
  | Some idx =>
      let sanitizedName :=
        match selectedEntity st with
        | Some entity =>
            if truthy (name entity) then Some (sanitizeName (name entity))
            else None
        | None => None
        end in
      let indexSegment := toString idx in
      match sanitizedName with
      | Some sanitized =>
          if truthy sanitized
          then prefix +:+ "-" +:+ indexSegment +:+ "-" +:+ sanitized
          else prefix +:+ "-" +:+ indexSegment
      | None => prefix +:+ "-" +:+ indexSegment
      end
  end.

(** The conditions of the two notices rendered above the field list:
    "select an entity" and "the entity does not exist at the current tick". *)
Definition showSelectEntityNotice (st : State) : bool :=
  bool_decide (demSelectedEntityIndex st = None).

Definition showMissingEntityNotice (st : State) : bool :=
  negb (bool_decide (demSelectedEntityIndex st = None))
  && (length (default [] (entityFieldList st)) =? 0)%nat.

End EntityFieldList.

(** ** Definitions written from the specification, for comparison *)

(** The sort key as §3 words it: every path integer in decimal, padded
    with zeros to four digits, concatenated. *)
Definition sortKeySpec (p : list N) : string :=
  join "" (map (fun part => padStart 4 "0" (toString part)) p).

(** The §3 invariant of the selection set: every member is the display
    name of a field of the filtered list. *)
Definition selectionWithinList (st : State) : Prop :=
  forall p, p ∈ selectedFieldPaths st ->
    exists item, item ∈ default [] (filteredEntityFieldList st)
                 /\ joinedNamedPath item = p.

(** The display names of the rows [lo..hi] (inclusive) of a list. *)
Definition rowNamesBetween (l : list WrappedEntityFieldLi) (lo hi : nat)
  (p : string) : Prop :=
  exists j item, (lo <= j <= hi)%nat /\ l !! j = Some item
                 /\ joinedNamedPath item = p.

(** Predicates on the characters of a string, used to state what a
    sanitised name looks like. *)
Fixpoint allChars (p : ascii -> bool) (s : string) : bool :=
  match s with
  | EmptyString => true
  | String c s' => p c && allChars p s'
  end.

Definition startsWithUnderscore (s : string) : bool :=
  match s with
  | String c _ => EntityFieldList.isUnderscore c
  | EmptyString => false
  end.

Fixpoint endsWithUnderscore (s : string) : bool :=
  match s with
  | EmptyString => false
  | String c EmptyString => EntityFieldList.isUnderscore c
  | String _ s' => endsWithUnderscore s'
  end.

Fixpoint hasDoubleUnderscore (s : string) : bool :=
  match s with
  | EmptyString => false
  | String c s' =>
      (EntityFieldList.isUnderscore c && startsWithUnderscore s')
      || hasDoubleUnderscore s'
  end.

(** The lines one entity contributes to the plain-text export. *)
Definition entityBlock (entity : EntityList.ExportEntity) : list string :=
  ["entity " +:+ toString (EntityList.ee_index entity) +:+ ": "
   +:+ EntityList.ee_name entity]
  ++ match EntityList.ee_fields entity with
     | [] => ["  (no fields)"]
     | fields =>
         map (fun field => "  " +:+ EntityList.ef_path field +:+ ": "
                           +:+ EntityList.ef_value field) fields
     end
  ++ [""].

(** ** Sample data: the scenario of §8 *)

Definition demoParser : DemParser :=
  {| listEntities := Some [mkEntityLi 0 "A"; mkEntityLi 1 "B"];
     listBaselineEntities := None;
     listEntityFields := fun idx =>
       if (idx =? 1)%N
       then Some [mkEntityFieldLi [0%N] ["x"] "int32" "int" "5"]
       else None;
     listBaselineEntityFields := fun _ => None |}.

Definition demoState : State :=
  {| demParser := Some demoParser;
     demView := View_entities;
     demTick := Some 7%Z;
     demSelectedEntityIndex := Some 1%N;
     filteredEntityList := Some [mkEntityLi 1 "B"];
     filteredEntityFieldList := None;
     selectedFieldPaths := ∅;
     lastSelectedIndexRef := None |}.




(** Three rows of a filtered field list; the second one is a handle. *)
Definition sampleField (p : list N) (names : list string) (enc val : string)
  : WrappedEntityFieldLi :=
  Normalize.wrapField (mkEntityFieldLi p names enc "" val).

Definition sampleRows : list WrappedEntityFieldLi :=
  [ sampleField [0%N] ["a"; "b"] "int32" "5";
    sampleField [1%N] ["c"; "d"] "CHandle< CBaseEntity >" "42";
    sampleField [2%N] ["e"] "bool" "true" ].

Definition sampleState (sel : gset string) (anchor : option nat) : State :=
  {| demParser := Some demoParser;
     demView := View_entities;
     demTick := Some 7%Z;
     demSelectedEntityIndex := Some 1%N;
     filteredEntityList := None;
     filteredEntityFieldList := Some sampleRows;
     selectedFieldPaths := sel;
     lastSelectedIndexRef := anchor |}.

Definition plainClick : MouseEvent := mkMouseEvent false false false.
Definition shiftClick : MouseEvent := mkMouseEvent true false false.

(** * Verification *)

Example wrap5 :
  joinedPath (Normalize.wrapField (mkEntityFieldLi [5%N; 12%N] ["a"; "b"] "" "" ""))
  = "   5  12".
Proof. reflexivity. Qed.

(** ** Facts about the comparator *)

Section Comparator.
Local Open Scope Z_scope.
Import Normalize.

Lemma compareLoop_cons x y a b i n :
  compareLoop (x :: a) (y :: b) (S i) n = compareLoop a b i n.
Proof.
  revert i. induction n as [|n IH]; intros i; simpl.
  - lia.
  - rewrite IH. reflexivity.
Qed.

Lemma comparePaths_nil_l b : comparePaths [] b = - Z.of_nat (length b).
Proof. unfold comparePaths. simpl. lia. Qed.

Lemma comparePaths_nil_r a : comparePaths a [] = Z.of_nat (length a).
Proof. unfold comparePaths. rewrite Nat.min_0_r. simpl. lia. Qed.

Lemma comparePaths_cons x y a b :
  comparePaths (x :: a) (y :: b) =
  if N.eqb x y then comparePaths a b else Z.of_N x - Z.of_N y.
Proof.
  unfold comparePaths. simpl.
  destruct (N.eqb x y); simpl; [apply compareLoop_cons | reflexivity].
Qed.

Lemma comparePaths_lt a b : comparePaths a b < 0 <-> path_lt a b.
Proof.
  revert b. induction a as [|x a IH]; intros [|y b].
  - rewrite comparePaths_nil_l. simpl. split; [lia | inversion 1].
  - rewrite comparePaths_nil_l. simpl. split; [constructor | lia].
  - rewrite comparePaths_nil_r. simpl. split; [lia | inversion 1].
  - rewrite comparePaths_cons. destruct (N.eqb_spec x y) as [->|Hne].
    + rewrite IH. split; [apply path_lt_tail |].
      inversion 1; subst; [lia | assumption].
    + split.
      * intros H. apply path_lt_head. lia.
      * inversion 1; subst; [lia | congruence].
Qed.








End Comparator.

(** ** Facts about the sort *)

Section Sorting.
Import Normalize.
Context {A : Type} (cmp : A -> A -> Z).
Local Abbreviation le := (fun a b => (cmp a b <= 0)%Z).

Lemma insertSorted_perm x l : Permutation (x :: l) (insertSorted cmp x l).
Proof.
  induction l as [|y l IH]; simpl; [reflexivity |].
  destruct (cmp x y <=? 0)%Z; [reflexivity |].
  rewrite perm_swap. apply perm_skip, IH.
Qed.

Lemma sort_perm l : Permutation l (sort cmp l).
Proof.
  induction l as [|x l IH]; simpl; [constructor |].
  rewrite <- insertSorted_perm. apply perm_skip, IH.
Qed.


(** A comparator is usable once two elements are never each above the
    other. *)
Hypothesis cmp_total : forall a b, (cmp a b > 0)%Z -> (cmp b a <= 0)%Z.





End Sorting.



Lemma filter_StronglySorted {A} (R : A -> A -> Prop) (f : A -> bool) l :
  StronglySorted R l -> StronglySorted R (List.filter f l).
Proof.
  induction 1 as [|x l Hs IH Hall]; simpl; [constructor |].
  destruct (f x); [| exact IH].
  constructor; [exact IH |].
  rewrite List.Forall_forall in *. intros y Hy.
  apply List.filter_In in Hy. apply Hall, Hy.
Qed.

(** ** C1: the display order *)



(** ** C2: the entity-list JSON export *)

Section EntityExport.
Import EntityList.
Variable JSON_stringify : ExportPayload -> string.

Lemma collectEntitiesForExport_length (p : DemParser) (b : bool) ents :
  (if b then listBaselineEntities p else listEntities p) = Some ents ->
  collectEntitiesForExport (Some p) b
  = map (fun entity =>
           {| ee_index := index entity;
              ee_name := name entity;
              ee_fields :=
                map exportField
                    (default []
                       ((if b then listBaselineEntityFields p
                         else listEntityFields p) (index entity))) |})
        ents.
Proof.
  intros H. unfold collectEntitiesForExport. rewrite H.
  destruct ents; reflexivity.
Qed.

(** C2. The JSON export of the entity list reads the parser, the view and
    the tick only: replacing the filtered entity list, the filtered field
    list, the field selection and its anchor by anything leaves the
    download unchanged. When the source stage lists a non-empty [ents], the
    serialised payload carries one entry per element of [ents], in order,
    with that entity's index, name and one record for every field the
    parser returns for it at export time (the dotted path, the path
    segments, both type tags and the value of that field), so
    [entities.length] is the unfiltered entity count. *)
Theorem C2_entity_json_export_all_entities (base : string) (st : State) :
  (forall filt flist sel anchor,
      exportAllJson JSON_stringify base
        (mkState (demParser st) (demView st) (demTick st)
                 (demSelectedEntityIndex st) filt flist sel anchor)
      = exportAllJson JSON_stringify base st)
  /\ (forall p ents,
        demParser st = Some p -> entityList st = Some ents -> ents <> [] ->
        let fieldsOf idx :=
          match demView st with
          | View_entities => listEntityFields p idx
          | View_baselineEntities => listBaselineEntityFields p idx
          end in
        let exported :=
          map (fun entity =>
                 {| ee_index := index entity;
                    ee_name := name entity;
                    ee_fields :=
                      map (fun field =>
                             {| ef_path := join "." (namedPath field);
                                ef_pathSegments := path field;
                                ef_encodedAs := encodedAs field;
                                ef_decodedAs := decodedAs field;
                                ef_value := value field |})
                          (default [] (fieldsOf (index entity))) |})
              ents in
        length exported = length ents
        /\ exportAllJson JSON_stringify base st
           = Some {| filename := (base +:+ "-fields") +:+ ".json";
                     content :=
                       JSON_stringify
                         {| ep_tick := demTick st;
                            ep_view :=
                              match demView st with
                              | View_entities => "entities"
                              | View_baselineEntities => "baselineEntities"
                              end;
                            ep_entities := exported |} +:+ LF;
                     mimeType := "application/json" |}).
Proof.
  split; [reflexivity |].
  intros p ents Hp Hents Hne fieldsOf exported. split.
  - unfold exported. apply length_map.
  - unfold exportAllJson, handleExportAllJson, entityList, isBaselineView in *.
    rewrite Hp in *. subst exported fieldsOf.
    destruct (demView st).
    + rewrite (collectEntitiesForExport_length p false ents Hents).
      destruct ents; [congruence | reflexivity].
    + rewrite (collectEntitiesForExport_length p true ents Hents).
      destruct ents; [congruence | reflexivity].
Qed.

End EntityExport.

Lemma C2_export_witness :
  exists d,
    EntityList.exportAllJson (fun _ => "{}") "entities-tick-7" demoState = Some d
    /\ filename d = "entities-tick-7-fields.json".
Proof.
  destruct (C2_entity_json_export_all_entities (fun _ => "{}")
              "entities-tick-7" demoState) as [_ H].
  destruct (H demoParser [mkEntityLi 0 "A"; mkEntityLi 1 "B"]
              eq_refl eq_refl ltac:(discriminate)) as [_ ->].
  eexists. split; reflexivity.
Defined.

(** ** Facts about the selection updaters *)

Section Selection.
Import EntityFieldList.

Lemma clearUpdater_empty prev : clearUpdater prev = ∅.
Proof.
  unfold clearUpdater. destruct (Nat.eqb_spec (size prev) 0) as [H|H]; simpl.
  - apply size_empty_iff in H. apply leibniz_equiv, H.
  - reflexivity.
Qed.

Lemma pruneStep_fold availablePaths xs acc :
  let r := fold_left (pruneStep availablePaths) xs acc in
  (forall p, p ∈ fst r <-> p ∈ fst acc \/ (p ∈ xs /\ p ∈ availablePaths))
  /\ (snd r = true <-> snd acc = true \/ exists x, x ∈ xs /\ x ∉ availablePaths).
Proof.
  revert acc. induction xs as [|x xs IH]; intros acc; simpl.
  - split; [set_solver |]. split; [auto |]. intros [H|(x & Hx & _)]; [exact H |].
    inversion Hx.
  - destruct (IH (pruneStep availablePaths acc x)) as [IH1 IH2].
    unfold pruneStep in *. split.
    + intros p. rewrite IH1. case_bool_decide; simpl; set_solver.
    + rewrite IH2. case_bool_decide; simpl.
      * split; (intros [H'|(y & Hy & Hn)]; [left; exact H' | right]).
        -- exists y. set_solver.
        -- exists y. apply elem_of_cons in Hy as [->|Hy]; [tauto | tauto].
      * split; [intros _; right; exists x; set_solver | auto].
Qed.

Lemma pruneUpdater_inter availablePaths prev :
  pruneUpdater availablePaths prev = prev ∩ availablePaths.
Proof.
  unfold pruneUpdater.
  destruct (Nat.eqb_spec (size prev) 0) as [H|H].
  - apply size_empty_iff in H. set_solver.
  - destruct (pruneStep_fold availablePaths (elements prev) (∅, false))
      as [H1 H2]. simpl in *.
    destruct (snd (fold_left _ _ _)) eqn:E.
    + apply set_eq. intros p. rewrite H1, elem_of_elements. set_solver.
    + apply set_eq. intros p. split; [| set_solver].
      intros Hp. apply elem_of_intersection. split; [exact Hp |].
      destruct (decide (p ∈ availablePaths)) as [?|Hn]; [assumption |].
      assert (false = true); [| discriminate].
      apply H2. right. exists p. rewrite elem_of_elements. tauto.
Qed.

Lemma rangeLoop_spec l n : forall i next p,
  p ∈ rangeLoop l i n next
  <-> p ∈ next
      \/ exists j item, (i <= j < i + n)%nat /\ l !! j = Some item
                        /\ joinedNamedPath item = p.
Proof.
  induction n as [|n IH]; intros i next p; simpl.
  - split; [auto |]. intros [H|(j & _ & Hj & _)]; [exact H | lia].
  - rewrite IH. split.
    + intros [H|(j & item & Hj & Hl & Hp)].
      * destruct (l !! i) as [listItem|] eqn:E; [| auto].
        apply elem_of_union in H as [H|H]; [| auto].
        apply elem_of_singleton in H. right. exists i, listItem.
        repeat split; [lia | lia | exact E | congruence].
      * right. exists j, item. repeat split; [lia | lia | exact Hl | exact Hp].
    + intros [H|(j & item & Hj & Hl & Hp)].
      * left. destruct (l !! i); set_solver.
      * destruct (decide (j = i)) as [->|Hne].
        -- left. rewrite Hl. set_solver.
        -- right. exists j, item. repeat split; [lia | lia | exact Hl | exact Hp].
Qed.

Lemma rangeLoop_range l a i p :
  p ∈ rangeLoop l (Nat.min a i) (S (Nat.max a i) - Nat.min a i) ∅
  <-> rowNamesBetween l (Nat.min a i) (Nat.max a i) p.
Proof.
  rewrite rangeLoop_spec. unfold rowNamesBetween. split.
  - intros [H|(j & item & Hj & H)]; [set_solver |].
    exists j, item. split; [lia | exact H].
  - intros (j & item & Hj & H). right. exists j, item. split; [lia | exact H].
Qed.

Lemma singleton_test (path : string) (prev : gset string) :
  (size prev =? 1)%nat && bool_decide (path ∈ prev) = true <-> prev = {[path]}.
Proof.
  rewrite andb_true_iff, Nat.eqb_eq, bool_decide_eq_true. split.
  - intros [Hs Hp]. apply size_1_elem_of in Hs as [x Hx].
    apply leibniz_equiv in Hx. subst prev. set_solver.
  - intros ->. split; [apply size_singleton | set_solver].
Qed.

End Selection.

(** ** C3, C7, C10, C6: clicks on a row *)

Section Clicks.
Import EntityFieldList.

Lemma updateSelection_nonempty run event i path st l :
  filteredEntityFieldList st = Some l -> l <> [] ->
  updateSelection run event i path st
  = setLastSelectedIndexRef (Some i)
      (setSelectedFieldPaths
         (selectionUpdater event
            match run with
            | AtDispatch => lastSelectedIndexRef st
            | AtRender => Some i
            end l i path) st).
Proof.
  intros Hl Hne. unfold updateSelection. rewrite Hl.
  destruct l; [congruence | reflexivity].
Qed.

Lemma updateSelection_entity run event i path st :
  demSelectedEntityIndex (updateSelection run event i path st)
  = demSelectedEntityIndex st.
Proof.
  unfold updateSelection.
  destruct (filteredEntityFieldList st) as [[|x l]|]; reflexivity.
Qed.

Lemma updateSelection_list run event i path st :
  filteredEntityFieldList (updateSelection run event i path st)
  = filteredEntityFieldList st.
Proof.
  unfold updateSelection.
  destruct (filteredEntityFieldList st) as [[|x l]|] eqn:E;
    simpl; congruence.
Qed.

Lemma plain_updater (path : string) (prev : gset string) :
  (if (size prev =? 1)%nat && bool_decide (path ∈ prev)
   then prev else {[path]}) = {[path]}.
Proof.
  destruct ((size prev =? 1)%nat && bool_decide (path ∈ prev)) eqn:E;
    [| reflexivity].
  apply singleton_test in E. exact E.
Qed.

(** The range branch when the ref holds [a]. *)
Lemma range_updater event a l i path prev :
  shiftKey event = true ->
  forall p, p ∈ selectionUpdater event (Some a) l i path prev
            <-> rowNamesBetween l (Nat.min a i) (Nat.max a i) p.
Proof.
  intros Hs p. unfold selectionUpdater. rewrite Hs. apply rangeLoop_range.
Qed.

(** The range branch when the ref already holds the clicked index. *)
Lemma range_updater_same event l i item path prev :
  shiftKey event = true -> l !! i = Some item ->
  selectionUpdater event (Some i) l i path prev = {[joinedNamedPath item]}.
Proof.
  intros Hs Hi. apply set_eq. intros p.
  rewrite (range_updater event i l i path prev Hs), elem_of_singleton.
  unfold rowNamesBetween. rewrite Nat.min_id, Nat.max_id. split.
  - intros (j & item' & Hj & Hlook & Hp).
    replace j with i in Hlook by lia. congruence.
  - intros ->. exists i, item. repeat split; [lia | lia | exact Hi].
Qed.

(** C3 (as the code has it). A range click on a row [i] of the filtered
    list while the anchor is [a] makes the clicked index the anchor,
    whenever React runs the updater. The selection is replaced: the new set
    does not depend on the set there was, it holds the display name of the
    clicked row, and it holds display names of rows between [a] and [i]
    only. *)
Theorem C3_range_click_moves_anchor_to_clicked_row
  (run : UpdaterRun) (event : MouseEvent) (a i : nat) (st : State)
  (l : list WrappedEntityFieldLi) (item : WrappedEntityFieldLi) :
  filteredEntityFieldList st = Some l -> l !! i = Some item ->
  shiftKey event = true -> lastSelectedIndexRef st = Some a ->
  let st' := updateSelection run event i (joinedNamedPath item) st in
  lastSelectedIndexRef st' = Some i
  /\ joinedNamedPath item ∈ selectedFieldPaths st'
  /\ (forall p, p ∈ selectedFieldPaths st' ->
        rowNamesBetween l (Nat.min a i) (Nat.max a i) p)
  /\ (forall prev,
        selectedFieldPaths
          (updateSelection run event i (joinedNamedPath item)
             (setSelectedFieldPaths (fun _ => prev) st))
        = selectedFieldPaths st').
Proof.
  intros Hl Hi Hshift Ha st'.
  assert (Hne : l <> []) by (intros ->; discriminate).
  assert (Hrow : rowNamesBetween l (Nat.min a i) (Nat.max a i)
                   (joinedNamedPath item)).
  { exists i, item. repeat split; [lia | lia | exact Hi]. }
  unfold st'. rewrite (updateSelection_nonempty _ _ _ _ _ _ Hl Hne).
  split; [reflexivity |]. simpl. destruct run.
  - rewrite Ha. split; [| split].
    + apply (range_updater event a l i _ _ Hshift), Hrow.
    + intros p. apply (range_updater event a l i _ _ Hshift).
    + intros prev.
      rewrite (updateSelection_nonempty AtDispatch _ _ _
                 (setSelectedFieldPaths (fun _ => prev) st) l Hl Hne).
      simpl. rewrite Ha. unfold selectionUpdater. rewrite Hshift. reflexivity.
  - rewrite (range_updater_same event l i item _ _ Hshift Hi).
    split; [| split].
    + set_solver.
    + intros p ->%elem_of_singleton. exact Hrow.
    + intros prev.
      rewrite (updateSelection_nonempty AtRender _ _ _
                 (setSelectedFieldPaths (fun _ => prev) st) l Hl Hne).
      simpl. apply (range_updater_same event l i item _ _ Hshift Hi).
Qed.

Lemma C3_range_click_witness :
  lastSelectedIndexRef
    (updateSelection AtRender shiftClick 2
       (joinedNamedPath (sampleField [2%N] ["e"] "bool" "true"))
       (sampleState {["a.b"]} (Some 0%nat)))
  = Some 2%nat.
Proof.
  exact (proj1 (C3_range_click_moves_anchor_to_clicked_row AtRender shiftClick
                  0 2 (sampleState {["a.b"]} (Some 0%nat)) sampleRows
                  (sampleField [2%N] ["e"] "bool" "true")
                  eq_refl eq_refl eq_refl eq_refl)).
Defined.

Lemma C3_anchor_kept_counterexample :
  lastSelectedIndexRef
    (updateSelection AtRender shiftClick 2 "e"
       (sampleState {["a.b"]} (Some 0%nat)))
  <> lastSelectedIndexRef (sampleState {["a.b"]} (Some 0%nat))
  /\ lastSelectedIndexRef
       (updateSelection AtDispatch shiftClick 2 "e"
          (sampleState {["a.b"]} (Some 0%nat)))
     <> lastSelectedIndexRef (sampleState {["a.b"]} (Some 0%nat)).
Proof. split; simpl; discriminate. Qed.

(** C7 (the code at the failing input). A range click on the third of
    three rows while the anchor is the first row. When React runs the
    updater at render, the ref already holds the clicked index: the
    selection is the clicked row alone, not the three rows between the
    anchor and the clicked row. When React runs the updater at dispatch the
    selection is those three rows. *)
Theorem C7_range_click_at_render_selects_clicked_row_only :
  selectedFieldPaths
    (updateSelection AtRender shiftClick 2 "e"
       (sampleState {["a.b"]} (Some 0%nat)))
  = {["e"]}
  /\ ~ (forall p,
          p ∈ selectedFieldPaths
                (updateSelection AtRender shiftClick 2 "e"
                   (sampleState {["a.b"]} (Some 0%nat)))
          <-> exists j item, (0 <= j <= 2)%nat /\ sampleRows !! j = Some item
                             /\ joinedNamedPath item = p)
  /\ (forall p,
        p ∈ selectedFieldPaths
              (updateSelection AtDispatch shiftClick 2 "e"
                 (sampleState {["a.b"]} (Some 0%nat)))
        <-> exists j item, (0 <= j <= 2)%nat /\ sampleRows !! j = Some item
                           /\ joinedNamedPath item = p).
Proof.
  assert (Hrender :
    selectedFieldPaths
      (updateSelection AtRender shiftClick 2 "e"
         (sampleState {["a.b"]} (Some 0%nat)))
    = {["e"]}).
  { rewrite (updateSelection_nonempty AtRender shiftClick 2 "e"
               (sampleState {["a.b"]} (Some 0%nat)) sampleRows eq_refl)
      by discriminate.
    simpl.
    apply (range_updater_same shiftClick sampleRows 2
             (sampleField [2%N] ["e"] "bool" "true") "e" _ eq_refl eq_refl). }
  split; [exact Hrender |]. split.
  - intros Hall. rewrite Hrender in Hall.
    assert (Hab : "a.b" ∈ ({["e"]} : gset string)).
    { apply Hall. exists 0%nat, (sampleField [0%N] ["a"; "b"] "int32" "5").
      repeat split; lia. }
    apply elem_of_singleton in Hab. discriminate Hab.
  - intros p.
    rewrite (updateSelection_nonempty AtDispatch shiftClick 2 "e"
               (sampleState {["a.b"]} (Some 0%nat)) sampleRows eq_refl)
      by discriminate.
    simpl. apply (range_updater shiftClick 0 sampleRows 2 "e" _ eq_refl).
Qed.

(** C6. A click without modifier on a row with display name [p] leaves a
    selection that is exactly [{p}] as it is and makes every other selection
    exactly [{p}]. *)
Theorem C6_plain_click_selects_row_only
  (run : UpdaterRun) (event : MouseEvent) (i : nat) (st : State)
  (l : list WrappedEntityFieldLi) (item : WrappedEntityFieldLi) :
  filteredEntityFieldList st = Some l -> l !! i = Some item ->
  shiftKey event = false -> ctrlKey event = false -> metaKey event = false ->
  let p := joinedNamedPath item in
  selectedFieldPaths (updateSelection run event i p st)
  = (if decide (selectedFieldPaths st = {[p]}) then selectedFieldPaths st
     else {[p]})
  /\ (selectedFieldPaths st = {[p]} ->
      selectedFieldPaths (updateSelection run event i p st)
      = selectedFieldPaths st).
Proof.
  intros Hl Hi Hs Hc Hm p.
  assert (Hne : l <> []) by (intros ->; discriminate).
  rewrite (updateSelection_nonempty _ _ _ _ _ _ Hl Hne). simpl.
  unfold selectionUpdater. rewrite Hs, Hc, Hm. simpl.
  rewrite plain_updater. split.
  - destruct (decide _) as [->|]; reflexivity.
  - intros ->. reflexivity.
Qed.

Lemma C6_plain_click_witness :
  selectedFieldPaths
    (updateSelection AtRender plainClick 0 "a.b"
       (sampleState {["a.b"]} (Some 0%nat)))
  = {["a.b"]}.
Proof.
  destruct (C6_plain_click_selects_row_only AtRender plainClick 0
              (sampleState {["a.b"]} (Some 0%nat)) sampleRows
              (sampleField [0%N] ["a"; "b"] "int32" "5")
              eq_refl eq_refl eq_refl eq_refl eq_refl) as [_ H].
  apply H. reflexivity.
Defined.

(** C10. With no anchor a click with shift as the only modifier is the
    plain click on that row, whenever React runs the updater: the selection
    becomes the singleton of the row's display name unless it already is,
    and the row's index becomes the anchor. When the updater runs at
    dispatch the range branch is skipped, and the click is handled as the
    same click without the shift key whatever the other modifiers are. *)
Theorem C10_shift_click_without_anchor_is_plain_click
  (run : UpdaterRun) (event : MouseEvent) (i : nat) (st : State)
  (l : list WrappedEntityFieldLi) (item : WrappedEntityFieldLi) :
  filteredEntityFieldList st = Some l -> l !! i = Some item ->
  shiftKey event = true -> lastSelectedIndexRef st = None ->
  let p := joinedNamedPath item in
  (run = AtDispatch ->
   updateSelection run event i p st
   = updateSelection run (mkMouseEvent false (ctrlKey event) (metaKey event))
       i p st)
  /\ (ctrlKey event = false -> metaKey event = false ->
      updateSelection run event i p st = updateSelection run plainClick i p st
      /\ selectedFieldPaths (updateSelection run event i p st)
         = (if decide (selectedFieldPaths st = {[p]})
            then selectedFieldPaths st else {[p]})
      /\ lastSelectedIndexRef (updateSelection run event i p st) = Some i).
Proof.
  intros Hl Hi Hs Ha p.
  assert (Hne : l <> []) by (intros ->; discriminate).
  rewrite !(updateSelection_nonempty _ _ _ _ _ _ Hl Hne). split.
  - intros ->. unfold selectionUpdater. rewrite Hs, Ha. reflexivity.
  - intros Hc Hm.
    assert (Hsel :
      selectionUpdater event
        match run with
        | AtDispatch => lastSelectedIndexRef st
        | AtRender => Some i
        end l i p (selectedFieldPaths st) = {[p]}).
    { destruct run.
      - unfold selectionUpdater. rewrite Hs, Ha, Hc, Hm. simpl.
        apply plain_updater.
      - apply (range_updater_same event l i item p _ Hs Hi). }
    assert (Hplain : forall last,
      selectionUpdater plainClick last l i p (selectedFieldPaths st) = {[p]}).
    { intros last. unfold selectionUpdater. simpl. apply plain_updater. }
    unfold setSelectedFieldPaths, setLastSelectedIndexRef. simpl.
    rewrite Hsel, Hplain. repeat split.
    destruct (decide _) as [->|]; reflexivity.
Qed.

Lemma C10_shift_click_witness :
  updateSelection AtRender shiftClick 1 "c.d" (sampleState ∅ None)
  = updateSelection AtRender plainClick 1 "c.d" (sampleState ∅ None).
Proof.
  destruct (C10_shift_click_without_anchor_is_plain_click AtRender shiftClick 1
              (sampleState ∅ None) sampleRows
              (sampleField [1%N] ["c"; "d"] "CHandle< CBaseEntity >" "42")
              eq_refl eq_refl eq_refl eq_refl) as [_ H].
  apply H; reflexivity.
Defined.

End Clicks.

(** ** C5: pruning after a change of the filtered list *)

Section Pruning.
Import EntityFieldList.

Lemma elem_of_names (l : list WrappedEntityFieldLi) (p : string) :
  p ∈ (list_to_set (map joinedNamedPath l) : gset string)
  <-> exists item, item ∈ l /\ joinedNamedPath item = p.
Proof.
  rewrite elem_of_list_to_set, list_elem_of_In, in_map_iff.
  split; intros (item & H1 & H2); exists item.
  - rewrite list_elem_of_In. auto.
  - rewrite list_elem_of_In in H1. auto.
Qed.

Lemma pruneEffect_selection st :
  selectedFieldPaths (pruneEffect st)
  = selectedFieldPaths st
    ∩ list_to_set (map joinedNamedPath (default [] (filteredEntityFieldList st))).
Proof.
  unfold pruneEffect.
  destruct (filteredEntityFieldList st) as [[|x l]|]; simpl.
  - rewrite clearUpdater_empty. set_solver.
  - apply pruneUpdater_inter.
  - rewrite clearUpdater_empty. set_solver.
Qed.

Lemma pruneEffect_list st :
  filteredEntityFieldList (pruneEffect st) = filteredEntityFieldList st.
Proof.
  unfold pruneEffect.
  destruct (filteredEntityFieldList st) as [[|x l]|] eqn:E; simpl; congruence.
Qed.

(** C5. After the filtered field list is replaced by [newList] and the
    pruning effect has run, the selection is the old selection restricted to
    the display names of [newList]: a member is kept exactly when some field
    of the new list carries it, nothing is added, the §3 invariant holds,
    and the selection is empty when no member survives. The selection
    [{"a.b", "c.d"}] against a list holding only "a.b" becomes [{"a.b"}].
    A change of entity or view empties the selection and the anchor. *)
Theorem C5_selection_pruned_to_filtered_list
  (newList : option (list WrappedEntityFieldLi)) (st : State) :
  let st' := pruneEffect (setFinalEntityFieldList newList st) in
  filteredEntityFieldList st' = newList
  /\ (forall p, p ∈ selectedFieldPaths st'
                <-> p ∈ selectedFieldPaths st
                    /\ exists item, item ∈ default [] newList
                                    /\ joinedNamedPath item = p)
  /\ selectionWithinList st'
  /\ ((forall p, p ∈ selectedFieldPaths st ->
         ~ exists item, item ∈ default [] newList /\ joinedNamedPath item = p)
      -> selectedFieldPaths st' = ∅)
  /\ selectedFieldPaths
       (pruneEffect
          (setFinalEntityFieldList
             (Some [sampleField [0%N] ["a"; "b"] "int32" "5"])
             (sampleState {["a.b"; "c.d"]} (Some 1%nat))))
     = {["a.b"]}
  /\ selectedFieldPaths (resetEffect st) = ∅
  /\ lastSelectedIndexRef (resetEffect st) = None.
Proof.
  intros st'.
  assert (Hmem : forall p, p ∈ selectedFieldPaths st'
                <-> p ∈ selectedFieldPaths st
                    /\ exists item, item ∈ default [] newList
                                    /\ joinedNamedPath item = p).
  { intros p. unfold st'. rewrite pruneEffect_selection. simpl.
    rewrite elem_of_intersection, elem_of_names. reflexivity. }
  split; [unfold st'; rewrite pruneEffect_list; reflexivity |].
  split; [exact Hmem |]. split; [| split; [| split; [| split]]].
  - intros p Hp. apply Hmem in Hp as [_ Hp].
    unfold st'. rewrite pruneEffect_list. exact Hp.
  - intros Hnone. apply set_eq. intros p. rewrite Hmem. split.
    + intros [Hp Hex]. destruct (Hnone p Hp Hex).
    + set_solver.
  - rewrite pruneEffect_selection. simpl. apply set_eq. intros p.
    unfold sampleField, Normalize.wrapField. simpl. set_unfold.
    change ("a" +:+ "." +:+ "b") with "a.b". clear. split.
    + intros [_ [->|[]]]. reflexivity.
    + intros ->. auto.
  - simpl. apply clearUpdater_empty.
  - reflexivity.
Qed.

Lemma C5_pruning_witness :
  selectedFieldPaths
    (pruneEffect
       (setFinalEntityFieldList (Some [])
          (sampleState {["a.b"; "c.d"]} (Some 1%nat))))
  = ∅.
Proof.
  destruct (C5_selection_pruned_to_filtered_list (Some [])
              (sampleState {["a.b"; "c.d"]} (Some 1%nat)))
    as (_ & _ & _ & H & _).
  apply H. intros p _ (item & Hitem & _). inversion Hitem.
Defined.

End Pruning.

(** ** The §3 invariant of the selection holds in every reachable state *)

Section Invariant.
Import EntityFieldList.

Lemma within_prune st : selectionWithinList (pruneEffect st).
Proof.
  intros p. rewrite pruneEffect_selection, pruneEffect_list.
  rewrite elem_of_intersection, elem_of_names. tauto.
Qed.

Lemma within_empty st : selectedFieldPaths st = ∅ -> selectionWithinList st.
Proof. intros H p. rewrite H. set_solver. Qed.

Lemma within_updateSelection run event i st l item :
  filteredEntityFieldList st = Some l -> l !! i = Some item ->
  selectionWithinList st ->
  selectionWithinList (updateSelection run event i (joinedNamedPath item) st).
Proof.
  intros Hl Hi Hinv.
  assert (Hne : l <> []) by (intros ->; discriminate).
  assert (Hitem : item ∈ l) by (apply list_elem_of_lookup; eauto).
  unfold selectionWithinList in *.
  rewrite (updateSelection_nonempty _ _ _ _ _ _ Hl Hne). simpl.
  rewrite Hl in *. simpl in *. intros p. unfold selectionUpdater.
  assert (Hrest :
    p ∈ (if metaKey event || ctrlKey event
         then if bool_decide (joinedNamedPath item ∈ selectedFieldPaths st)
              then selectedFieldPaths st ∖ {[joinedNamedPath item]}
              else {[joinedNamedPath item]} ∪ selectedFieldPaths st
         else if (size (selectedFieldPaths st) =? 1)%nat
                 && bool_decide (joinedNamedPath item ∈ selectedFieldPaths st)
              then selectedFieldPaths st else {[joinedNamedPath item]})
    -> exists item0, item0 ∈ l /\ joinedNamedPath item0 = p).
  { rewrite plain_updater.
    destruct (metaKey event || ctrlKey event); [case_bool_decide |].
    - intros Hp. apply Hinv. set_solver.
    - intros [->%elem_of_singleton|Hp]%elem_of_union; [eauto | auto].
    - intros ->%elem_of_singleton. eauto. }
  destruct (shiftKey event),
    (match run with
     | AtDispatch => lastSelectedIndexRef st
     | AtRender => Some i
     end) as [last|];
    try exact Hrest.
  rewrite rangeLoop_range. intros (j & item0 & _ & Hj & Hp).
  exists item0. split; [| exact Hp]. apply list_elem_of_lookup. eauto.
Qed.

Lemma within_reachable JsNumber unaryPlus isEHandleValid eHandleToIndex st :
  reachable JsNumber unaryPlus isEHandleValid eHandleToIndex st ->
  selectionWithinList st.
Proof.
  induction 1 as [st Hs _|run event i st _ IH|entries f st _ _
                  |parser tick st _ IH|view idx st _ _|l st _ IH].
  - apply within_empty, Hs.
  - unfold onClick.
    destruct (filteredEntityFieldList st) as [l|] eqn:Hl; [| exact IH].
    destruct (l !! i) as [item|] eqn:Hi; [| exact IH].
    pose proof (within_updateSelection run event i st l item Hl Hi IH) as Hupd.
    unfold handleFieldClick.
    destruct (linkedEntIdx _ _ _ _ item); [| exact Hupd].
    destruct (negb (metaKey event) && negb (ctrlKey event)
              && negb (shiftKey event)); exact Hupd.
  - apply within_prune.
  - exact IH.
  - apply within_empty. simpl. apply clearUpdater_empty.
  - exact IH.
Qed.

End Invariant.

(** ** C8: the plain-text export of the field list *)

Section FieldExport.
Import EntityFieldList.

Lemma append_nil_r (s : string) : s +:+ "" = s.
Proof.
  induction s as [|c s IH]; [reflexivity |].
  change (String c (s +:+ "") = String c s). rewrite IH. reflexivity.
Qed.

Lemma append_assoc (s t u : string) : (s +:+ t) +:+ u = s +:+ t +:+ u.
Proof.
  induction s as [|c s IH]; [reflexivity |].
  change (String c ((s +:+ t) +:+ u) = String c (s +:+ t +:+ u)).
  rewrite IH. reflexivity.
Qed.

Lemma join_lines (lines : list string) :
  lines <> [] ->
  join LF lines +:+ LF = fold_right (fun ln acc => ln +:+ LF +:+ acc) "" lines.
Proof.
  induction lines as [|ln [|ln' rest] IH]; intros Hne.
  - congruence.
  - cbn [join fold_right]. rewrite append_nil_r. reflexivity.
  - change (join LF (ln :: ln' :: rest))
      with (ln +:+ LF +:+ join LF (ln' :: rest)).
    rewrite !append_assoc, IH by discriminate. reflexivity.
Qed.

Lemma filter_sublist {A} (f : A -> bool) (l : list A) :
  sublist (List.filter f l) l.
Proof.
  induction l as [|x l IH]; simpl; [constructor |].
  destruct (f x); [apply sublist_skip | apply sublist_cons]; exact IH.
Qed.

Lemma exportableFields_spec st :
  selectionWithinList st ->
  exportableFields st
  = if decide (selectedFieldPaths st = ∅) then visibleFields st
    else List.filter
           (fun item => bool_decide (joinedNamedPath item ∈ selectedFieldPaths st))
           (visibleFields st).
Proof.
  intros Hinv. unfold exportableFields, selectedFields, visibleFields.
  destruct (decide (selectedFieldPaths st = ∅)) as [He|Hne].
  - rewrite He, size_empty. destruct (filteredEntityFieldList st); reflexivity.
  - assert (Hsz : (size (selectedFieldPaths st) =? 0)%nat = false).
    { apply Nat.eqb_neq. rewrite size_empty_iff. intros H.
      apply Hne, leibniz_equiv, H. }
    rewrite Hsz. destruct (filteredEntityFieldList st) as [l|] eqn:Hl;
      [| reflexivity].
    simpl. destruct (List.filter _ l) as [|x sel] eqn:Hf; [| reflexivity].
    exfalso. apply set_choose_L in Hne as [p Hp].
    destruct (Hinv p Hp) as (item & Hitem & Hname).
    rewrite Hl in Hitem. simpl in Hitem.
    assert (Hin : In item (List.filter
              (fun item => bool_decide (joinedNamedPath item ∈ selectedFieldPaths st))
              l)).
    { apply List.filter_In. split; [apply list_elem_of_In, Hitem |].
      apply bool_decide_eq_true. rewrite Hname. exact Hp. }
    rewrite Hf in Hin. destruct Hin.
Qed.

(** The export under the §3 invariant of the selection. *)
Lemma field_export_under_invariant (baseFileName : string) (st : State) :
  selectionWithinList st ->
  let fields :=
    if decide (selectedFieldPaths st = ∅) then visibleFields st
    else List.filter
           (fun item => bool_decide (joinedNamedPath item ∈ selectedFieldPaths st))
           (visibleFields st) in
  let lines :=
    map (fun field => joinedNamedPath field +:+ ": " +:+ value (inner field))
        fields in
  exportableFields st = fields
  /\ sublist fields (visibleFields st)
  /\ (StronglySorted fieldLe (visibleFields st) -> StronglySorted fieldLe fields)
  /\ length lines = length fields
  /\ exportRaw baseFileName st
     = (if decide (fields = []) then None
        else Some {| filename := (baseFileName +:+ "-fields") +:+ ".txt";
                     content :=
                       fold_right (fun ln acc => ln +:+ LF +:+ acc) "" lines;
                     mimeType := "text/plain;charset=utf-8" |}).
Proof.
  intros Hinv fields lines.
  pose proof (exportableFields_spec st Hinv) as Hexp. fold fields in Hexp.
  split; [exact Hexp |]. split; [| split; [| split]].
  - unfold fields. destruct (decide _); [reflexivity | apply filter_sublist].
  - unfold fields. destruct (decide _); [auto | apply filter_StronglySorted].
  - apply length_map.
  - unfold exportRaw, handleExportRaw. rewrite Hexp. fold lines.
    destruct (decide (fields = [])) as [->|Hne]; [reflexivity |].
    destruct fields as [|x fs] eqn:E; [congruence |].
    cbn [length Nat.eqb]. rewrite join_lines; [reflexivity |].
    unfold lines. discriminate.
Qed.

(** C8. In every state the component reaches, the plain-text export of the
    field list is made from the fields of the filtered list whose display
    name is selected when the selection is not empty, and from the whole
    filtered list (not the unfiltered one) otherwise. These fields are taken
    in the order of the filtered list, so they are sorted when it is; with
    none of them there is no download, and otherwise the content is, for
    each field in that order, the display name, a colon and a space, the
    value and a line feed. *)
Theorem C8_field_text_export_selected_else_filtered
  (JsNumber : Type) (unaryPlus : string -> JsNumber)
  (isEHandleValid : JsNumber -> bool) (eHandleToIndex : JsNumber -> N)
  (baseFileName : string) (st : State) :
  reachable JsNumber unaryPlus isEHandleValid eHandleToIndex st ->
  let fields :=
    if decide (selectedFieldPaths st = ∅) then visibleFields st
    else List.filter
           (fun item => bool_decide (joinedNamedPath item ∈ selectedFieldPaths st))
           (visibleFields st) in
  let lines :=
    map (fun field => joinedNamedPath field +:+ ": " +:+ value (inner field))
        fields in
  exportableFields st = fields
  /\ sublist fields (visibleFields st)
  /\ (StronglySorted fieldLe (visibleFields st) -> StronglySorted fieldLe fields)
  /\ length lines = length fields
  /\ exportRaw baseFileName st
     = (if decide (fields = []) then None
        else Some {| filename := (baseFileName +:+ "-fields") +:+ ".txt";
                     content :=
                       fold_right (fun ln acc => ln +:+ LF +:+ acc) "" lines;
                     mimeType := "text/plain;charset=utf-8" |}).
Proof.
  intros Hreach. apply field_export_under_invariant.
  eapply within_reachable, Hreach.
Qed.

Lemma C8_field_export_witness :
  EntityFieldList.exportableFields
    (EntityFieldList.onClick Z (fun _ => 0%Z) (fun _ => false) Z.to_N
       AtRender plainClick 1 (sampleState ∅ None))
  = [sampleField [1%N] ["c"; "d"] "CHandle< CBaseEntity >" "42"].
Proof.
  destruct (C8_field_text_export_selected_else_filtered
              Z (fun _ => 0%Z) (fun _ => false) Z.to_N "entity-1-B"
              (EntityFieldList.onClick Z (fun _ => 0%Z) (fun _ => false) Z.to_N
                 AtRender plainClick 1 (sampleState ∅ None))
              (reach_click _ _ _ _ AtRender plainClick 1 (sampleState ∅ None)
                 (reach_mount _ _ _ _ (sampleState ∅ None) eq_refl eq_refl)))
    as [H _].
  eapply eq_trans; [exact H |]. vm_compute. reflexivity.
Defined.

End FieldExport.

(** ** C9: handle navigation *)

Section Navigation.
Import EntityFieldList.
Variable JsNumber : Type.
Variable unaryPlus : string -> JsNumber.
Variable isEHandleValid : JsNumber -> bool.
Variable eHandleToIndex : JsNumber -> N.

Local Abbreviation onClick := (onClick JsNumber unaryPlus isEHandleValid eHandleToIndex).
Local Abbreviation handleValid := (handleValid JsNumber unaryPlus isEHandleValid).

Lemma handleFieldClick_modifier run event i linked path st :
  shiftKey event || ctrlKey event || metaKey event = true ->
  handleFieldClick run event i linked path st
  = updateSelection run event i path st.
Proof.
  intros H. unfold handleFieldClick. destruct linked; [| reflexivity].
  destruct (shiftKey event), (ctrlKey event), (metaKey event);
    try discriminate; reflexivity.
Qed.

(** C9. Clicking the row [i] of the filtered list always performs the row
    selection of [updateSelection]. When no modifier is held and the row's
    field is a valid handle, the selected entity additionally becomes the
    handle's target index, or none when that index was the selected entity.
    When the handle is invalid (or the field is no handle), or when shift,
    ctrl or meta is held, the click is the row selection alone and the
    selected entity stays as it was. *)
Theorem C9_handle_click_toggles_selected_entity
  (run : UpdaterRun) (event : MouseEvent) (i : nat) (st : State)
  (l : list WrappedEntityFieldLi) (item : WrappedEntityFieldLi) :
  filteredEntityFieldList st = Some l -> l !! i = Some item ->
  let rowSelected := updateSelection run event i (joinedNamedPath item) st in
  let target := eHandleToIndex (unaryPlus (value (inner item))) in
  (shiftKey event = false -> ctrlKey event = false -> metaKey event = false ->
   handleValid item = true ->
   onClick run event i st
   = setDemSelectedEntityIndex
       (fun _ => if decide (demSelectedEntityIndex st = Some target)
                 then None else Some target)
       rowSelected)
  /\ (handleValid item = false
      \/ shiftKey event = true \/ ctrlKey event = true \/ metaKey event = true
      -> onClick run event i st = rowSelected
         /\ demSelectedEntityIndex (onClick run event i st)
            = demSelectedEntityIndex st).
Proof.
  intros Hl Hi rowSelected target. unfold EntityFieldList.onClick.
  rewrite Hl, Hi. unfold linkedEntIdx. split.
  - intros Hs Hc Hm Hv. rewrite Hv.
    unfold handleFieldClick. rewrite Hs, Hc, Hm. simpl.
    unfold setDemSelectedEntityIndex.
    rewrite (updateSelection_entity run event i (joinedNamedPath item) st).
    fold rowSelected target.
    destruct (decide _) as [E|E].
    + rewrite bool_decide_eq_true_2 by exact E. reflexivity.
    + rewrite bool_decide_eq_false_2 by exact E. reflexivity.
  - intros H.
    assert (Hgoal : handleFieldClick run event i
              (if EntityFieldList.handleValid JsNumber unaryPlus isEHandleValid item
               then Some target else None) (joinedNamedPath item) st
            = rowSelected).
    { destruct H as [Hv|H].
      - rewrite Hv. reflexivity.
      - apply handleFieldClick_modifier.
        destruct H as [->|[->| ->]]; rewrite ?orb_true_r; reflexivity. }
    fold target. rewrite Hgoal. split; [reflexivity |].
    apply updateSelection_entity.
Qed.

End Navigation.

Lemma C9_handle_click_witness :
  demSelectedEntityIndex
    (EntityFieldList.onClick Z (fun _ => 42%Z) (fun _ => true) Z.to_N
       AtRender plainClick 1 (sampleState ∅ None))
  = Some 42%N.
Proof.
  destruct (C9_handle_click_toggles_selected_entity Z (fun _ => 42%Z)
              (fun _ => true) Z.to_N AtRender plainClick 1 (sampleState ∅ None)
              sampleRows
              (sampleField [1%N] ["c"; "d"] "CHandle< CBaseEntity >" "42")
              eq_refl eq_refl) as [H _].
  rewrite H by reflexivity. reflexivity.
Defined.

(** ** C4: the padded path key *)

Section PathKey.
Import Normalize.
Local Open Scope string_scope.

Local Abbreviation pad4 := (fun part : N => padStart 4 " " (toString part)).

Lemma compare_refl (s : string) : (s ?= s) = Eq.
Proof.
  induction s as [|c s IH]; simpl; [reflexivity |].
  unfold Ascii.compare. rewrite N.compare_refl. exact IH.
Qed.

Lemma compare_lt_trans (s t u : string) :
  (s ?= t) = Lt -> (t ?= u) = Lt -> (s ?= u) = Lt.
Proof.
  revert t u. induction s as [|a s IH]; intros [|b t] [|c u]; simpl;
    try discriminate; try reflexivity.
  unfold Ascii.compare.
  destruct (N.compare_spec (N_of_ascii a) (N_of_ascii b)) as [Hab|Hab|Hab];
    try discriminate;
    destruct (N.compare_spec (N_of_ascii b) (N_of_ascii c)) as [Hbc|Hbc|Hbc];
    try discriminate; intros H1 H2.
  - rewrite Hab, Hbc, N.compare_refl. eapply IH; eassumption.
  - rewrite Hab. apply N.compare_lt_iff in Hbc. rewrite Hbc. reflexivity.
  - rewrite <- Hbc. apply N.compare_lt_iff in Hab. rewrite Hab. reflexivity.
  - assert (Hac : (N_of_ascii a < N_of_ascii c)%N) by lia.
    apply N.compare_lt_iff in Hac. rewrite Hac. reflexivity.
Qed.

Lemma compare_append (u v s t : string) :
  String.length u = String.length v ->
  (u +:+ s ?= v +:+ t)
  = match u ?= v with Eq => s ?= t | c => c end.
Proof.
  revert v. induction u as [|a u IH]; intros [|b v] Hlen;
    try discriminate; [reflexivity |].
  injection Hlen as Hlen.
  change ((String a (u +:+ s) ?= String b (v +:+ t))
          = match String a u ?= String b v with Eq => s ?= t | c => c end).
  simpl. destruct (Ascii.compare a b); [apply IH, Hlen | reflexivity..].
Qed.

Lemma length_append (s t : string) :
  String.length (s +:+ t) = (String.length s + String.length t)%nat.
Proof.
  induction s as [|c s IH]; [reflexivity |].
  change (S (String.length (s +:+ t)) = S (String.length s + String.length t)).
  rewrite IH. reflexivity.
Qed.

Lemma join_empty_cons (s : string) (rest : list string) :
  join "" (s :: rest) = s +:+ join "" rest.
Proof.
  destruct rest as [|s' rest]; simpl.
  - symmetry. apply append_nil_r.
  - reflexivity.
Qed.

(** The table of the ten thousand keys of one element: each has four
    characters and is below the key of the next number. *)
Lemma pad4_table :
  forallb (fun n => let x := N.of_nat n in
                    (String.length (pad4 x) =? 4)%nat
                    && (pad4 x <? pad4 (x + 1)%N))
          (seq 0 (N.to_nat 9999)) = true.
Proof. vm_compute. reflexivity. Qed.

Lemma pad4_step (x : N) :
  (x < 9999)%N ->
  String.length (pad4 x) = 4%nat /\ (pad4 x ?= pad4 (x + 1)%N) = Lt.
Proof.
  intros Hx. pose proof pad4_table as Htab.
  rewrite forallb_forall in Htab.
  assert (Hin : In (N.to_nat x) (seq 0 (N.to_nat 9999))) by (apply in_seq; lia).
  apply Htab in Hin. rewrite N2Nat.id in Hin.
  apply andb_true_iff in Hin as [Hlen Hlt].
  split; [apply Nat.eqb_eq, Hlen |].
  unfold String.ltb in Hlt. destruct (pad4 x ?= pad4 (x + 1)%N); congruence.
Qed.

Lemma pad4_length (x : N) : (x < 10000)%N -> String.length (pad4 x) = 4%nat.
Proof.
  intros Hx. destruct (N.eq_dec x 9999%N) as [->|Hne]; [reflexivity |].
  apply pad4_step. lia.
Qed.

Lemma pad4_mono (x y : N) :
  (x < y)%N -> (y < 10000)%N -> (pad4 x ?= pad4 y) = Lt.
Proof.
  intros Hxy Hy.
  assert (Hk : forall k : nat, (x + N.of_nat (S k) < 10000)%N ->
             (pad4 x ?= pad4 (x + N.of_nat (S k))%N) = Lt).
  { induction k as [|k IH]; intros Hb.
    - apply pad4_step. lia.
    - apply compare_lt_trans with (t := pad4 (x + N.of_nat (S k))%N).
      + apply IH. lia.
      + replace (x + N.of_nat (S (S k)))%N
          with (x + N.of_nat (S k) + 1)%N by lia.
        apply pad4_step. lia. }
  specialize (Hk (N.to_nat (y - x) - 1)%nat).
  replace (x + N.of_nat (S (N.to_nat (y - x) - 1)))%N with y in Hk by lia.
  apply Hk, Hy.
Qed.

Lemma joinedPath_compare (p q : list N) :
  Forall (fun x => (x < 10000)%N) p -> Forall (fun x => (x < 10000)%N) q ->
  (join "" (map pad4 p) ?= join "" (map pad4 q))
  = (comparePaths p q ?= 0)%Z.
Proof.
  intros Hp. revert q. induction Hp as [|x p Hx Hp IH]; intros q Hq.
  - rewrite comparePaths_nil_l. destruct Hq as [|y q Hy Hq]; [reflexivity |].
    rewrite map_cons, join_empty_cons.
    pose proof (pad4_length y Hy) as Hlen.
    destruct (pad4 y) as [|c s]; [discriminate |].
    simpl length. symmetry. apply Z.compare_lt_iff. lia.
  - destruct Hq as [|y q Hy Hq].
    + rewrite comparePaths_nil_r, map_cons, join_empty_cons.
      pose proof (pad4_length x Hx) as Hlen.
      destruct (pad4 x) as [|c s]; [discriminate |].
      simpl length. symmetry. apply Z.compare_gt_iff. lia.
    + rewrite !map_cons, !join_empty_cons, comparePaths_cons.
      rewrite compare_append
        by (rewrite (pad4_length x Hx), (pad4_length y Hy); reflexivity).
      destruct (N.eqb_spec x y) as [->|Hne].
      * rewrite compare_refl. apply IH, Hq.
      * destruct (N.lt_total x y) as [Hlt|[Heq|Hgt]]; [| congruence |].
        -- rewrite (pad4_mono x y Hlt Hy). symmetry.
           apply Z.compare_lt_iff. lia.
        -- rewrite String.compare_antisym, (pad4_mono y x Hgt Hx). simpl.
           symmetry. apply Z.compare_gt_iff. lia.
Qed.

Lemma joinedPath_length (p : list N) :
  Forall (fun x => (x < 10000)%N) p ->
  String.length (join "" (map pad4 p)) = (4 * length p)%nat.
Proof.
  induction 1 as [|x p Hx Hp IH]; [reflexivity |].
  rewrite map_cons, join_empty_cons, length_append, (pad4_length x Hx), IH.
  simpl length. lia.
Qed.

(** C4 (as the code has it). The key derived for a field is the
    concatenation of its path integers in decimal, each padded on the left
    with spaces to four characters; for two fields whose path elements are
    below 10000 the keys have four characters per element, and comparing the
    keys as strings gives the order of the numeric path comparison: smaller,
    equal or larger exactly when the comparator is negative, zero or
    positive, hence smaller exactly in the order of §3. *)
Theorem C4_space_padded_key_orders_like_paths (a b : EntityFieldLi) :
  Forall (fun x => (x < 10000)%N) (path a) ->
  Forall (fun x => (x < 10000)%N) (path b) ->
  joinedPath (wrapField a)
  = join "" (map (fun part => padStart 4 " " (toString part)) (path a))
  /\ String.length (joinedPath (wrapField a)) = (4 * length (path a))%nat
  /\ (joinedPath (wrapField a) ?= joinedPath (wrapField b))
     = (compareFn (wrapField a) (wrapField b) ?= 0)%Z
  /\ ((joinedPath (wrapField a) <? joinedPath (wrapField b)) = true
      <-> path_lt (path a) (path b)).
Proof.
  intros Ha Hb. split; [reflexivity |]. split; [| split].
  - apply joinedPath_length, Ha.
  - apply joinedPath_compare; assumption.
  - unfold String.ltb. simpl joinedPath.
    rewrite (joinedPath_compare _ _ Ha Hb), <- comparePaths_lt.
    destruct (Z.compare_spec (comparePaths (path a) (path b)) 0);
      split; intros; congruence || lia.
Qed.

End PathKey.

Lemma C4_key_order_witness :
  String.ltb
    (joinedPath (Normalize.wrapField (mkEntityFieldLi [5%N] ["x"] "" "" "")))
    (joinedPath (Normalize.wrapField (mkEntityFieldLi [12%N; 0%N] ["y"] "" "" "")))
  = true.
Proof.
  apply (C4_space_padded_key_orders_like_paths
           (mkEntityFieldLi [5%N] ["x"] "" "" "")
           (mkEntityFieldLi [12%N; 0%N] ["y"] "" "" ""));
    [repeat constructor; reflexivity.. |].
  apply path_lt_head. reflexivity.
Defined.

Lemma C4_zero_padding_counterexample :
  joinedPath (Normalize.wrapField (mkEntityFieldLi [5%N] ["x"] "" "" ""))
  <> sortKeySpec (path (mkEntityFieldLi [5%N] ["x"] "" "" "")).
Proof. vm_compute. discriminate. Qed.

(** * Further properties of the two components *)

(** ** Toggle clicks, stale anchors and the selection invariant *)

Section MoreClicks.
Import EntityFieldList.

Lemma toggle_updater event last l i path prev :
  shiftKey event = false \/ last = None ->
  metaKey event || ctrlKey event = true ->
  selectionUpdater event last l i path prev
  = if bool_decide (path ∈ prev) then prev ∖ {[path]} else {[path]} ∪ prev.
Proof.
  intros Hs Hm. unfold selectionUpdater. rewrite Hm.
  destruct Hs as [-> | ->]; [reflexivity |].
  destruct (shiftKey event); reflexivity.
Qed.

(** X1. A click with ctrl or meta held and no range in effect (shift is
    not held; or shift is held, there is no anchor and React runs the
    updater at dispatch) on a non-empty list flips the membership of the
    clicked path, keeps the membership of every other path, and makes the
    clicked index the anchor. *)
Theorem X1_toggle_click_flips_only_clicked_path
  (run : UpdaterRun) (event : MouseEvent) (i : nat) (path : string)
  (st : State) (l : list WrappedEntityFieldLi) :
  filteredEntityFieldList st = Some l -> l <> [] ->
  shiftKey event = false
  \/ (run = AtDispatch /\ lastSelectedIndexRef st = None) ->
  metaKey event || ctrlKey event = true ->
  (path ∈ selectedFieldPaths (updateSelection run event i path st)
   <-> path ∉ selectedFieldPaths st)
  /\ (forall p, p <> path ->
        (p ∈ selectedFieldPaths (updateSelection run event i path st)
         <-> p ∈ selectedFieldPaths st))
  /\ lastSelectedIndexRef (updateSelection run event i path st) = Some i.
Proof.
  intros Hl Hne Hs Hm.
  rewrite (updateSelection_nonempty _ _ _ _ _ _ Hl Hne). simpl.
  rewrite toggle_updater; [| | exact Hm].
  - case_bool_decide; (split; [| split; [| reflexivity]]); set_solver.
  - destruct Hs as [Hs|[-> Ha]]; [left; exact Hs | right; exact Ha].
Qed.

Lemma X1_toggle_click_witness :
  "c.d" ∈ selectedFieldPaths
            (updateSelection AtRender (mkMouseEvent false true false) 1 "c.d"
               (sampleState {["a.b"]} (Some 0%nat))).
Proof.
  destruct (X1_toggle_click_flips_only_clicked_path AtRender
              (mkMouseEvent false true false) 1 "c.d"
              (sampleState {["a.b"]} (Some 0%nat)) sampleRows
              eq_refl ltac:(discriminate) (or_introl eq_refl) eq_refl)
    as [H _].
  apply H. simpl. set_unfold. discriminate.
Defined.

(** X2. Two toggle clicks (ctrl or meta, no shift) on the same row of a
    non-empty list give back the selection set there was before them,
    whenever React runs the two updaters. *)
Theorem X2_toggle_click_twice_restores_selection
  (run run' : UpdaterRun) (event : MouseEvent) (i : nat) (path : string)
  (st : State) (l : list WrappedEntityFieldLi) :
  filteredEntityFieldList st = Some l -> l <> [] ->
  shiftKey event = false -> metaKey event || ctrlKey event = true ->
  selectedFieldPaths
    (updateSelection run' event i path (updateSelection run event i path st))
  = selectedFieldPaths st.
Proof.
  intros Hl Hne Hs Hm.
  assert (Hl' : filteredEntityFieldList (updateSelection run event i path st)
                = Some l) by (rewrite updateSelection_list; exact Hl).
  rewrite (updateSelection_nonempty _ _ _ _ _ _ Hl' Hne). simpl.
  rewrite (toggle_updater _ _ _ _ _ _ (or_introl Hs) Hm).
  rewrite (updateSelection_nonempty _ _ _ _ _ _ Hl Hne). simpl.
  rewrite (toggle_updater _ _ _ _ _ _ (or_introl Hs) Hm).
  apply set_eq. intros p.
  destruct (decide (path ∈ selectedFieldPaths st)) as [Hin|Hout].
  - rewrite (bool_decide_eq_true_2 _ Hin).
    rewrite bool_decide_eq_false_2 by set_solver.
    destruct (decide (p = path)); set_solver.
  - rewrite (bool_decide_eq_false_2 _ Hout).
    rewrite bool_decide_eq_true_2 by set_solver.
    set_solver.
Qed.

Lemma X2_toggle_twice_witness :
  selectedFieldPaths
    (updateSelection AtRender (mkMouseEvent false false true) 2 "e"
       (updateSelection AtRender (mkMouseEvent false false true) 2 "e"
          (sampleState {["a.b"]} None)))
  = {["a.b"]}.
Proof.
  exact (X2_toggle_click_twice_restores_selection AtRender AtRender
           (mkMouseEvent false false true) 2 "e"
           (sampleState {["a.b"]} None) sampleRows
           eq_refl ltac:(discriminate) eq_refl eq_refl).
Defined.

(** X3. The anchor can point past the end of the filtered list (the list
    shrank since the last click). A range click on row [i] then selects,
    when React runs the updater at dispatch, the display names of the rows
    from [i] to the last row (the indices without a row are skipped), and,
    when React runs it at render, the display name of the clicked row
    alone. *)
Theorem X3_range_click_with_anchor_past_the_end
  (run : UpdaterRun) (event : MouseEvent) (a i : nat) (st : State)
  (l : list WrappedEntityFieldLi) (item : WrappedEntityFieldLi) :
  filteredEntityFieldList st = Some l -> l !! i = Some item ->
  shiftKey event = true -> lastSelectedIndexRef st = Some a ->
  (length l <= a)%nat ->
  forall p,
    p ∈ selectedFieldPaths
          (updateSelection run event i (joinedNamedPath item) st)
    <-> match run with
        | AtDispatch => exists item', item' ∈ drop i l
                                      /\ joinedNamedPath item' = p
        | AtRender => p = joinedNamedPath item
        end.
Proof.
  intros Hl Hi Hs Ha Hlen p.
  assert (Hne : l <> []) by (intros ->; discriminate).
  rewrite (updateSelection_nonempty _ _ _ _ _ _ Hl Hne). simpl.
  destruct run.
  - rewrite Ha, (range_updater event a l i _ _ Hs).
    apply lookup_lt_Some in Hi as Hlt. unfold rowNamesBetween. split.
    + intros (j & item' & Hj & Hlook & Hp). exists item'. split; [| exact Hp].
      apply list_elem_of_lookup. exists (j - i)%nat.
      rewrite lookup_drop. replace (i + (j - i))%nat with j by lia. exact Hlook.
    + intros (item' & Hin & Hp). apply list_elem_of_lookup in Hin as [k Hk].
      rewrite lookup_drop in Hk. exists (i + k)%nat, item'.
      apply lookup_lt_Some in Hk as Hlt'.
      repeat split; [lia | lia | exact Hk | exact Hp].
  - rewrite (range_updater_same event l i item _ _ Hs Hi).
    apply elem_of_singleton.
Qed.

Lemma X3_stale_anchor_witness :
  "e" ∈ selectedFieldPaths
          (updateSelection AtDispatch shiftClick 1
             (joinedNamedPath
                (sampleField [1%N] ["c"; "d"] "CHandle< CBaseEntity >" "42"))
             (sampleState {["a.b"]} (Some 7%nat))).
Proof.
  apply (X3_range_click_with_anchor_past_the_end AtDispatch shiftClick 7 1
           (sampleState {["a.b"]} (Some 7%nat)) sampleRows
           (sampleField [1%N] ["c"; "d"] "CHandle< CBaseEntity >" "42")
           eq_refl eq_refl eq_refl eq_refl);
    [simpl; lia |].
  exists (sampleField [2%N] ["e"] "bool" "true"). split; [| reflexivity].
  simpl. set_solver.
Defined.

(** X4. In every state the field list reaches (mount, row clicks, filter
    updates followed by the pruning effect, changes of the atoms followed by
    the reset effect), every selected path is the display name of a row of
    the filtered list. *)
Theorem X4_selection_always_within_filtered_list
  (JsNumber : Type) (unaryPlus : string -> JsNumber)
  (isEHandleValid : JsNumber -> bool) (eHandleToIndex : JsNumber -> N)
  (st : State) :
  reachable JsNumber unaryPlus isEHandleValid eHandleToIndex st ->
  forall p, p ∈ selectedFieldPaths st ->
    exists item, item ∈ default [] (filteredEntityFieldList st)
                 /\ joinedNamedPath item = p.
Proof. intros Hreach. exact (within_reachable _ _ _ _ st Hreach). Qed.

Lemma X4_selection_within_witness :
  exists item, item ∈ sampleRows /\ joinedNamedPath item = "e".
Proof.
  apply (X4_selection_always_within_filtered_list
           Z (fun _ => 0%Z) (fun _ => false) Z.to_N
           (EntityFieldList.onClick Z (fun _ => 0%Z) (fun _ => false) Z.to_N
              AtRender plainClick 2 (sampleState ∅ None))
           (reach_click _ _ _ _ AtRender plainClick 2 (sampleState ∅ None)
              (reach_mount _ _ _ _ (sampleState ∅ None) eq_refl eq_refl))).
  vm_compute. set_solver.
Defined.

(** X5. A new filtered list that still holds a row for every selected path
    leaves the selection as it is. The anchor is cleared when the new list
    is empty or absent and is kept, whatever row it now points at, when the
    list is not empty. *)
Theorem X5_pruning_keeps_present_selection_and_anchor
  (newList : option (list WrappedEntityFieldLi)) (st : State) :
  ((forall p, p ∈ selectedFieldPaths st ->
      exists item, item ∈ default [] newList /\ joinedNamedPath item = p) ->
   selectedFieldPaths (pruneEffect (setFinalEntityFieldList newList st))
   = selectedFieldPaths st)
  /\ lastSelectedIndexRef (pruneEffect (setFinalEntityFieldList newList st))
     = (if (length (default [] newList) =? 0)%nat then None
        else lastSelectedIndexRef st).
Proof.
  split.
  - intros Hall. rewrite pruneEffect_selection. simpl.
    apply set_eq. intros p. rewrite elem_of_intersection, elem_of_names.
    split; [tauto |]. intros Hp. split; [exact Hp | apply Hall, Hp].
  - unfold pruneEffect. simpl. destruct newList as [[|x l]|]; reflexivity.
Qed.

Lemma X5_pruning_identity_witness :
  selectedFieldPaths
    (pruneEffect
       (setFinalEntityFieldList (Some sampleRows)
          (sampleState {["a.b"]} (Some 1%nat))))
  = selectedFieldPaths (sampleState {["a.b"]} (Some 1%nat)).
Proof.
  apply (proj1 (X5_pruning_keeps_present_selection_and_anchor
                  (Some sampleRows) (sampleState {["a.b"]} (Some 1%nat)))).
  intros p Hp. simpl in Hp. apply elem_of_singleton in Hp as ->.
  exists (sampleField [0%N] ["a"; "b"] "int32" "5"). split; [| reflexivity].
  simpl. unfold sampleRows. set_solver.
Defined.

End MoreClicks.

(** ** The export controls of the field list *)

Section MoreFieldExport.
Import EntityFieldList.
Variable JSON_stringify : list ExportField -> string.

(** X6. The counter beside the export buttons is the number of fields an
    export writes, and the buttons are enabled exactly when each of the two
    export handlers produces a download; when they are disabled both
    handlers do nothing. *)
Theorem X6_counter_and_buttons_agree_with_exports
  (baseFileName : string) (st : State) :
  counterValue st = length (exportableFields st)
  /\ (hasExportableFields st = true <-> is_Some (exportRaw baseFileName st))
  /\ (hasExportableFields st = true
      <-> is_Some (exportJson JSON_stringify baseFileName st))
  /\ (hasExportableFields st = false ->
      exportRaw baseFileName st = None
      /\ exportJson JSON_stringify baseFileName st = None).
Proof.
  unfold hasExportableFields, exportRaw, exportJson, handleExportRaw,
    handleExportJson.
  split.
  - unfold counterValue, exportableFields.
    destruct (0 <? length (selectedFields st))%nat; reflexivity.
  - destruct (exportableFields st) as [|x fs]; simpl.
    + repeat split; try discriminate; intros [d Hd]; discriminate.
    + repeat split; try discriminate; intros _; eexists; reflexivity.
Qed.

(** X7. When there is something to export, the JSON export and the
    plain-text export of the field list are made from the same fields in
    the same order: the payload has, for each exported field, the record of
    its display name, encoded type, decoded type and value, and the text
    has, for each exported field, the line of its display name, a colon and
    a space, and its value; so each line is the path and the value of the
    record at the same position. *)
Theorem X7_field_json_and_text_exports_carry_same_fields
  (baseFileName : string) (st : State) :
  hasExportableFields st = true ->
  let payload :=
    map (fun field =>
           {| xf_path := joinedNamedPath field;
              xf_encodedAs := encodedAs (inner field);
              xf_decodedAs := decodedAs (inner field);
              xf_value := value (inner field) |})
        (exportableFields st) in
  let lines :=
    map (fun field => joinedNamedPath field +:+ ": " +:+ value (inner field))
        (exportableFields st) in
  exportJson JSON_stringify baseFileName st
  = Some {| filename := (baseFileName +:+ "-fields") +:+ ".json";
            content := JSON_stringify payload +:+ LF;
            mimeType := "application/json" |}
  /\ exportRaw baseFileName st
     = Some {| filename := (baseFileName +:+ "-fields") +:+ ".txt";
               content := join LF lines +:+ LF;
               mimeType := "text/plain;charset=utf-8" |}
  /\ length payload = counterValue st
  /\ length lines = counterValue st
  /\ Forall2 (fun record line =>
                line = xf_path record +:+ ": " +:+ xf_value record)
             payload lines.
Proof.
  intros Hhas payload lines. unfold hasExportableFields in Hhas.
  assert (Hcount : counterValue st = length (exportableFields st)).
  { unfold counterValue, exportableFields.
    destruct (0 <? length (selectedFields st))%nat; reflexivity. }
  subst payload lines.
  unfold exportJson, exportRaw, handleExportJson, handleExportRaw.
  rewrite Hcount, !length_map.
  destruct (exportableFields st) as [|x fs] eqn:E; [discriminate |].
  cbn [length Nat.eqb]. repeat split.
  generalize (x :: fs). intros fields.
  induction fields as [|f fields IH]; simpl; constructor; [reflexivity | exact IH].
Qed.

End MoreFieldExport.

Lemma X6_buttons_witness :
  EntityFieldList.exportRaw "entity-1-B" (sampleState ∅ None) <> None.
Proof.
  destruct (X6_counter_and_buttons_agree_with_exports (fun _ => "[]")
              "entity-1-B" (sampleState ∅ None)) as (_ & H & _).
  assert (Hhas : EntityFieldList.hasExportableFields (sampleState ∅ None) = true)
    by (vm_compute; reflexivity).
  destruct (proj1 H Hhas) as [d Hd]. rewrite Hd. discriminate.
Defined.

Lemma X7_same_fields_witness :
  exists d, EntityFieldList.exportJson (fun _ => "[]") "entity-1-B"
              (sampleState ∅ None) = Some d.
Proof.
  assert (Hhas : EntityFieldList.hasExportableFields (sampleState ∅ None) = true)
    by (vm_compute; reflexivity).
  destruct (X7_field_json_and_text_exports_carry_same_fields (fun _ => "[]")
              "entity-1-B" (sampleState ∅ None) Hhas) as (H & _).
  eexists. exact H.
Defined.

(** ** The exports and the rows of the entity list *)

Section MoreEntityList.
Import EntityList.
Variable JSON_stringify : ExportPayload -> string.
Variable nonFiniteTickText : string.
Variable trimEnd : string -> string.

Lemma pushEntity_block lines entity :
  pushEntity lines entity = lines ++ entityBlock entity.
Proof.
  assert (Hfold : forall fields acc,
    fold_left
      (fun lines field =>
         lines ++ ["  " +:+ ef_path field +:+ ": " +:+ ef_value field])
      fields acc
    = acc ++ map (fun field => "  " +:+ ef_path field +:+ ": "
                               +:+ ef_value field) fields).
  { induction fields as [|g gs IH]; intros acc; simpl.
    - rewrite app_nil_r. reflexivity.
    - rewrite IH, <- List.app_assoc. reflexivity. }
  unfold pushEntity, entityBlock.
  destruct (ee_fields entity) as [|f fs] eqn:E; simpl length; cbn [Nat.eqb].
  - rewrite <- !List.app_assoc. reflexivity.
  - rewrite Hfold, <- !List.app_assoc. reflexivity.
Qed.

Lemma collect_length st :
  length (collectEntitiesForExport (demParser st) (isBaselineView st))
  = length (default [] (entityList st)).
Proof.
  unfold collectEntitiesForExport, entityList, isBaselineView.
  destruct (demParser st) as [p|]; [| reflexivity].
  destruct (demView st).
  - destruct (listEntities p) as [[|e l]|]; simpl; rewrite ?length_map; reflexivity.
  - destruct (listBaselineEntities p) as [[|e l]|]; simpl;
      rewrite ?length_map; reflexivity.
Qed.

Lemma exportAllRawLines_blocks entitiesForExport demTick isBaselineView :
  exportAllRawLines nonFiniteTickText entitiesForExport demTick isBaselineView
  = [ "view: " +:+ (if isBaselineView then "baselineEntities" else "entities");
      "tick: " +:+ tickText nonFiniteTickText demTick;
      "" ]
    ++ concat (map entityBlock entitiesForExport).
Proof.
  assert (Hfold : forall ents header,
    fold_left pushEntity ents header = header ++ concat (map entityBlock ents)).
  { induction ents as [|e ents IH]; intros header; simpl.
    - rewrite app_nil_r. reflexivity.
    - rewrite IH, pushEntity_block, <- List.app_assoc. reflexivity. }
  unfold exportAllRawLines. apply Hfold.
Qed.

Lemma exports_Some_iff baseFileName st :
  (hasEntities st = true
   <-> is_Some (exportAllJson JSON_stringify baseFileName st))
  /\ (hasEntities st = true
      <-> is_Some (exportAllRaw nonFiniteTickText trimEnd st)).
Proof.
  unfold hasEntities, exportAllJson, exportAllRaw, handleExportAllJson,
    handleExportAllRaw.
  rewrite <- collect_length.
  destruct (collectEntitiesForExport (demParser st) (isBaselineView st))
    as [|e ents]; simpl.
  - split; (split; [discriminate | intros [d Hd]; discriminate]).
  - split; (split; [intros _; eexists; reflexivity | reflexivity]).
Qed.

(** X9. The two export buttons of the entity list are enabled exactly when
    the JSON handler and the plain-text handler each produce a download;
    both handlers export the same entities, so the text has as many entity
    blocks as the JSON payload has entries, one per listed entity. *)
Theorem X9_entity_export_buttons_agree_with_exports
  (baseFileName : string) (st : State) :
  (hasEntities st = true
   <-> is_Some (exportAllJson JSON_stringify baseFileName st))
  /\ (hasEntities st = true
      <-> is_Some (exportAllRaw nonFiniteTickText trimEnd st))
  /\ (hasEntities st = true ->
      let exported :=
        collectEntitiesForExport (demParser st) (isBaselineView st) in
      length exported = length (default [] (entityList st))
      /\ exportAllJson JSON_stringify baseFileName st
         = Some {| filename := (baseFileName +:+ "-fields") +:+ ".json";
                   content :=
                     JSON_stringify
                       {| ep_tick := demTick st;
                          ep_view := if isBaselineView st
                                     then "baselineEntities" else "entities";
                          ep_entities := exported |} +:+ LF;
                   mimeType := "application/json" |}
      /\ exportAllRaw nonFiniteTickText trimEnd st
         = Some {| filename :=
                     (EntityList.baseFileName st +:+ "-fields") +:+ ".txt";
                   content :=
                     trimEnd
                       (join LF
                          ([ "view: " +:+ (if isBaselineView st
                                           then "baselineEntities"
                                           else "entities");
                             "tick: " +:+ tickText nonFiniteTickText (demTick st);
                             "" ]
                           ++ concat (map entityBlock exported))) +:+ LF;
                   mimeType := "text/plain;charset=utf-8" |}).
Proof.
  destruct (exports_Some_iff baseFileName st) as [H1 H2].
  split; [exact H1 |]. split; [exact H2 |].
  intros Hhas exported. split; [apply collect_length |].
  unfold hasEntities in Hhas. rewrite <- collect_length in Hhas.
  fold exported in Hhas.
  unfold exportAllJson, exportAllRaw, handleExportAllJson, handleExportAllRaw.
  fold exported.
  destruct exported as [|e ents] eqn:E; [discriminate |].
  cbn [length Nat.eqb]. split; [reflexivity |].
  rewrite exportAllRawLines_blocks. reflexivity.
Qed.

(** X10. Clicking the row of an entity whose index is a safe integer
    selects that entity, or clears the selected entity when it was that
    one. The selected entity always changes, so the effect on it runs and
    leaves the field selection empty and the anchor undefined. Two clicks
    on the row, each followed by that effect, bring the selected entity
    back when no entity or this entity was selected before. *)
Theorem X10_entity_row_click_toggles_selected_entity
  (i : nat) (st : State) (l : list EntityLi) (entity : EntityLi) :
  filteredEntityList st = Some l -> l !! i = Some entity ->
  (index entity <= MAX_SAFE_INTEGER)%N ->
  let click s := EntityFieldList.resetEffect (onRowClick i s) in
  demSelectedEntityIndex (onRowClick i st)
  = (if decide (demSelectedEntityIndex st = Some (index entity)) then None
     else Some (index entity))
  /\ demSelectedEntityIndex (onRowClick i st) <> demSelectedEntityIndex st
  /\ demSelectedEntityIndex (click st)
     = demSelectedEntityIndex (onRowClick i st)
  /\ selectedFieldPaths (click st) = ∅
  /\ lastSelectedIndexRef (click st) = None
  /\ (demSelectedEntityIndex st = None
      \/ demSelectedEntityIndex st = Some (index entity) ->
      demSelectedEntityIndex (click (click st)) = demSelectedEntityIndex st).
Proof.
  intros Hl Hi Hmax click.
  assert (Hclick : forall s, filteredEntityList s = Some l ->
    onRowClick i s
    = setDemSelectedEntityIndex
        (fun prev => if bool_decide (prev = Some (index entity)) then None
                     else Some (index entity)) s).
  { intros s Hs. unfold onRowClick. rewrite Hs. simpl. rewrite Hi. simpl.
    apply N.leb_le in Hmax. rewrite Hmax.
    rewrite (proj2 (N.leb_le 0 (index entity)) (N.le_0_l _)). reflexivity. }
  assert (Hl' : filteredEntityList (click st) = Some l).
  { unfold click. rewrite (Hclick st Hl). exact Hl. }
  split; [| split; [| split; [| split; [| split]]]].
  - rewrite (Hclick st Hl). simpl.
    destruct (decide _) as [E|E].
    + rewrite bool_decide_eq_true_2 by exact E. reflexivity.
    + rewrite bool_decide_eq_false_2 by exact E. reflexivity.
  - rewrite (Hclick st Hl). simpl.
    case_bool_decide as E; [rewrite E; discriminate | congruence].
  - reflexivity.
  - unfold click. simpl. apply clearUpdater_empty.
  - reflexivity.
  - intros Hsel. unfold click at 1. simpl.
    rewrite (Hclick (click st) Hl'). simpl.
    unfold click. rewrite (Hclick st Hl). simpl.
    destruct Hsel as [Hs|Hs]; rewrite Hs;
      repeat (case_bool_decide; try congruence).
Qed.

End MoreEntityList.

Lemma X9_entity_buttons_witness :
  exists d, EntityList.exportAllRaw "NaN" (fun s => s) demoState = Some d.
Proof.
  destruct (X9_entity_export_buttons_agree_with_exports (fun _ => "{}")
              "NaN" (fun s => s) "entities" demoState) as (_ & _ & H).
  destruct (H eq_refl) as (_ & _ & Hraw). eexists. exact Hraw.
Defined.

Lemma X10_entity_row_click_witness :
  demSelectedEntityIndex (EntityList.onRowClick 0 demoState) = None.
Proof.
  exact (proj1 (X10_entity_row_click_toggles_selected_entity 0 demoState
                  [mkEntityLi 1 "B"] (mkEntityLi 1 "B") eq_refl eq_refl
                  ltac:(vm_compute; discriminate))).
Defined.


(** ** File names *)

Section FileNames.
Import EntityFieldList.

Lemma isUnderscore_eq c : isUnderscore c = true -> c = "_"%char.
Proof. apply Ascii.eqb_eq. Qed.

Lemma isUnderscore_nameChar c : isUnderscore c = true -> isNameChar c = true.
Proof. intros ->%isUnderscore_eq. reflexivity. Qed.

Lemma replaceOtherRuns_chars inRun s :
  allChars isNameChar (replaceOtherRuns inRun s) = true.
Proof.
  revert inRun. induction s as [|c s IH]; intros inRun; simpl; [reflexivity |].
  destruct (isNameChar c) eqn:Hc; simpl.
  - rewrite Hc. apply IH.
  - destruct inRun; simpl; apply IH.
Qed.

Lemma replaceOtherRuns_id inRun s :
  allChars isNameChar s = true -> replaceOtherRuns inRun s = s.
Proof.
  revert inRun. induction s as [|c s IH]; intros inRun; simpl; [reflexivity |].
  intros [Hc Hs]%andb_true_iff. rewrite Hc, (IH false Hs). reflexivity.
Qed.

Lemma collapseUnderscores_cons c s :
  collapseUnderscores (String c s)
  = if isUnderscore c && startsWithUnderscore s then collapseUnderscores s
    else String c (collapseUnderscores s).
Proof.
  simpl. destruct (isUnderscore c) eqn:Hc; [| reflexivity].
  apply isUnderscore_eq in Hc as ->. destruct s as [|c' s]; [reflexivity |].
  simpl. destruct (isUnderscore c'); reflexivity.
Qed.

Lemma collapseUnderscores_start s :
  startsWithUnderscore (collapseUnderscores s) = startsWithUnderscore s.
Proof.
  induction s as [|c s IH]; [reflexivity |].
  rewrite collapseUnderscores_cons.
  destruct (isUnderscore c) eqn:Hc, (startsWithUnderscore s) eqn:Hs; simpl;
    rewrite ?Hc; congruence.
Qed.

Lemma collapseUnderscores_chars p s :
  allChars p s = true -> allChars p (collapseUnderscores s) = true.
Proof.
  induction s as [|c s IH]; [reflexivity |].
  rewrite collapseUnderscores_cons. simpl.
  intros [Hc Hs]%andb_true_iff.
  destruct (isUnderscore c && startsWithUnderscore s); simpl;
    rewrite ?Hc; auto.
Qed.

Lemma collapseUnderscores_no_double s :
  hasDoubleUnderscore (collapseUnderscores s) = false.
Proof.
  induction s as [|c s IH]; [reflexivity |].
  rewrite collapseUnderscores_cons.
  destruct (isUnderscore c && startsWithUnderscore s) eqn:E; [exact IH |].
  simpl. rewrite collapseUnderscores_start, E, IH. reflexivity.
Qed.

Lemma collapseUnderscores_id s :
  hasDoubleUnderscore s = false -> collapseUnderscores s = s.
Proof.
  induction s as [|c s IH]; [reflexivity |].
  rewrite collapseUnderscores_cons. simpl.
  intros [E Hs]%orb_false_iff. rewrite E, (IH Hs). reflexivity.
Qed.

Lemma dropLeading_start s :
  startsWithUnderscore (dropLeadingUnderscores s) = false.
Proof.
  induction s as [|c s IH]; [reflexivity |]. simpl.
  destruct (isUnderscore c) eqn:Hc; [exact IH | simpl; exact Hc].
Qed.

Lemma dropLeading_chars p s :
  allChars p s = true -> allChars p (dropLeadingUnderscores s) = true.
Proof.
  induction s as [|c s IH]; [reflexivity |]. simpl.
  intros [Hc Hs]%andb_true_iff.
  destruct (isUnderscore c); [auto | simpl; rewrite Hc; exact Hs].
Qed.

Lemma dropLeading_no_double s :
  hasDoubleUnderscore s = false ->
  hasDoubleUnderscore (dropLeadingUnderscores s) = false.
Proof.
  induction s as [|c s IH]; [reflexivity |]. simpl.
  intros [E Hs]%orb_false_iff.
  destruct (isUnderscore c) eqn:Hc; [auto |]. simpl. rewrite Hc, Hs. reflexivity.
Qed.

Lemma dropLeading_id s :
  startsWithUnderscore s = false -> dropLeadingUnderscores s = s.
Proof. destruct s as [|c s]; simpl; [reflexivity |]. intros ->. reflexivity. Qed.

Lemma dropTrailing_cons c s :
  dropTrailingUnderscores (String c s)
  = match dropTrailingUnderscores s with
    | EmptyString => if isUnderscore c then EmptyString else String c EmptyString
    | String d r => String c (String d r)
    end.
Proof. reflexivity. Qed.

Lemma dropTrailing_start s :
  startsWithUnderscore (dropTrailingUnderscores s) = true ->
  startsWithUnderscore s = true.
Proof.
  destruct s as [|c s]; [discriminate |]. rewrite dropTrailing_cons.
  destruct (dropTrailingUnderscores s); simpl; [| auto].
  destruct (isUnderscore c) eqn:Hc; simpl; congruence.
Qed.

Lemma dropTrailing_end s :
  endsWithUnderscore (dropTrailingUnderscores s) = false.
Proof.
  induction s as [|c s IH]; [reflexivity |]. rewrite dropTrailing_cons.
  destruct (dropTrailingUnderscores s) as [|d r]; [| exact IH].
  destruct (isUnderscore c) eqn:Hc; simpl; [reflexivity | exact Hc].
Qed.

Lemma dropTrailing_chars p s :
  allChars p s = true -> allChars p (dropTrailingUnderscores s) = true.
Proof.
  induction s as [|c s IH]; [reflexivity |]. rewrite dropTrailing_cons.
  simpl. intros [Hc Hs]%andb_true_iff. specialize (IH Hs).
  destruct (dropTrailingUnderscores s) as [|d r].
  - destruct (isUnderscore c); simpl; rewrite ?Hc; reflexivity.
  - change (p c && allChars p (String d r) = true). rewrite Hc. exact IH.
Qed.

Lemma dropTrailing_no_double s :
  hasDoubleUnderscore s = false ->
  hasDoubleUnderscore (dropTrailingUnderscores s) = false.
Proof.
  induction s as [|c s IH]; [reflexivity |]. rewrite dropTrailing_cons.
  simpl. intros [E Hs]%orb_false_iff. specialize (IH Hs).
  pose proof (dropTrailing_start s) as Hstart.
  destruct (dropTrailingUnderscores s) as [|d r].
  - destruct (isUnderscore c); simpl; rewrite ?andb_false_r; reflexivity.
  - change (isUnderscore c && startsWithUnderscore (String d r)
            || hasDoubleUnderscore (String d r) = false).
    rewrite IH, orb_false_r.
    destruct (isUnderscore c); [| reflexivity]. simpl in E |- *.
    destruct (isUnderscore d) eqn:Hd; [| reflexivity].
    rewrite Hstart in E by exact Hd. discriminate.
Qed.

Lemma dropTrailing_id s :
  endsWithUnderscore s = false -> dropTrailingUnderscores s = s.
Proof.
  induction s as [|c s IH]; [reflexivity |]. rewrite dropTrailing_cons.
  destruct s as [|d r].
  - simpl. intros ->. reflexivity.
  - intros Hend. change (endsWithUnderscore (String d r) = false) in Hend.
    rewrite (IH Hend). reflexivity.
Qed.

(** X11. Whatever the entity is called, the name put into the file name
    holds only letters, digits, hyphens and underscores, has no two
    underscores in a row, and neither starts nor ends with an underscore. *)
Theorem X11_sanitized_name_is_clean (selectedEntityName : string) :
  allChars isNameChar (sanitizeName selectedEntityName) = true
  /\ hasDoubleUnderscore (sanitizeName selectedEntityName) = false
  /\ startsWithUnderscore (sanitizeName selectedEntityName) = false
  /\ endsWithUnderscore (sanitizeName selectedEntityName) = false.
Proof.
  unfold sanitizeName. repeat split.
  - apply dropTrailing_chars, dropLeading_chars, collapseUnderscores_chars,
      replaceOtherRuns_chars.
  - apply dropTrailing_no_double, dropLeading_no_double,
      collapseUnderscores_no_double.
  - destruct (startsWithUnderscore (dropTrailingUnderscores _)) eqn:E;
      [| reflexivity].
    apply dropTrailing_start in E. rewrite dropLeading_start in E. discriminate.
  - apply dropTrailing_end.
Qed.

(** X12. A name that already has that shape is kept as it is, so
    sanitising a name a second time changes nothing. *)
Theorem X12_sanitize_keeps_clean_names_and_is_idempotent :
  (forall s, allChars isNameChar s = true -> hasDoubleUnderscore s = false ->
             startsWithUnderscore s = false -> endsWithUnderscore s = false ->
             sanitizeName s = s)
  /\ (forall s, sanitizeName (sanitizeName s) = sanitizeName s).
Proof.
  assert (Hid : forall s, allChars isNameChar s = true ->
            hasDoubleUnderscore s = false ->
            startsWithUnderscore s = false -> endsWithUnderscore s = false ->
            sanitizeName s = s).
  { intros s Hc Hd Hs He. unfold sanitizeName.
    rewrite (replaceOtherRuns_id false s Hc), (collapseUnderscores_id s Hd),
      (dropLeading_id s Hs), (dropTrailing_id s He). reflexivity. }
  split; [exact Hid |]. intros s. apply Hid.
  - apply dropTrailing_chars, dropLeading_chars, collapseUnderscores_chars,
      replaceOtherRuns_chars.
  - apply dropTrailing_no_double, dropLeading_no_double,
      collapseUnderscores_no_double.
  - destruct (startsWithUnderscore (sanitizeName s)) eqn:E; [| reflexivity].
    unfold sanitizeName in E.
    apply dropTrailing_start in E. rewrite dropLeading_start in E. discriminate.
  - apply dropTrailing_end.
Qed.

Lemma X12_sanitize_clean_witness :
  sanitizeName "CDOTA_Unit_Hero-3" = "CDOTA_Unit_Hero-3".
Proof.
  apply (proj1 X12_sanitize_keeps_clean_names_and_is_idempotent);
    reflexivity.
Defined.

End FileNames.

Section MoreFileNames.
Import EntityFieldList.

Lemma allChars_append p s t :
  allChars p (s +:+ t) = allChars p s && allChars p t.
Proof.
  induction s as [|c s IH]; [reflexivity |].
  change (p c && allChars p (s +:+ t) = p c && allChars p s && allChars p t).
  rewrite IH, andb_assoc. reflexivity.
Qed.

Lemma pretty_N_char_nameChar x : isNameChar (pretty_N_char x) = true.
Proof. unfold pretty_N_char. repeat case_match; reflexivity. Qed.

Lemma pretty_N_go_chars x s :
  allChars isNameChar s = true -> allChars isNameChar (pretty_N_go x s) = true.
Proof.
  revert s. induction (N.lt_wf_0 x) as [x _ IH]. intros s Hs.
  destruct (decide (0 < x)%N) as [Hpos|Hzero].
  - rewrite pretty_N_go_step by exact Hpos. apply IH.
    + apply N.div_lt; [exact Hpos | reflexivity].
    + simpl. rewrite pretty_N_char_nameChar. exact Hs.
  - replace x with 0%N by lia. rewrite pretty_N_go_0. exact Hs.
Qed.

Lemma toString_chars (part : N) : allChars isNameChar (toString part) = true.
Proof.
  unfold toString, pretty, pretty_N. destruct (decide (part = 0%N)).
  - reflexivity.
  - apply pretty_N_go_chars. reflexivity.
Qed.

(** X13. The base of the file name of a field-list export (view prefix,
    entity index and sanitised entity name) holds only letters, digits,
    hyphens and underscores, whatever the entity is called. *)
Theorem X13_field_export_file_base_is_file_safe (st : State) :
  allChars isNameChar (baseFileName st) = true.
Proof.
  unfold baseFileName.
  assert (Hprefix : allChars isNameChar
            match demView st with
            | View_baselineEntities => "baseline-entity"
            | View_entities => "entity"
            end = true) by (destruct (demView st); reflexivity).
  destruct (demSelectedEntityIndex st) as [idx|]; [| exact Hprefix].
  assert (Hshort : forall prefix, allChars isNameChar prefix = true ->
            allChars isNameChar (prefix +:+ "-" +:+ toString idx) = true).
  { intros prefix Hp. rewrite !allChars_append, Hp, toString_chars. reflexivity. }
  destruct (selectedEntity st) as [entity|]; [| apply Hshort, Hprefix].
  destruct (truthy (name entity)); [| apply Hshort, Hprefix].
  destruct (truthy (sanitizeName (name entity))); [| apply Hshort, Hprefix].
  rewrite !allChars_append, Hprefix, toString_chars. unfold sanitizeName.
  rewrite (dropTrailing_chars _ _
             (dropLeading_chars _ _
                (collapseUnderscores_chars _ _
                   (replaceOtherRuns_chars false (name entity))))).
  reflexivity.
Qed.

(** X14. The base of the file name of an entity-list export tells the view
    and the tick apart: two states with the same base have the same view
    and the same tick (or both no finite tick). *)
Theorem X14_entity_export_file_base_determines_view_and_tick
  (st1 st2 : State) :
  EntityList.baseFileName st1 = EntityList.baseFileName st2 ->
  EntityList.isBaselineView st1 = EntityList.isBaselineView st2
  /\ demTick st1 = demTick st2.
Proof.
  unfold EntityList.baseFileName.
  destruct (EntityList.isBaselineView st1), (EntityList.isBaselineView st2),
    (demTick st1) as [t1|], (demTick st2) as [t2|]; intros H;
    cbv [String.append] in H; try discriminate H; split; try reflexivity;
    injection H as H; f_equal; apply (inj pretty); exact H.
Qed.

Lemma X14_file_base_witness :
  demTick demoState = demTick (sampleState ∅ None).
Proof.
  exact (proj2 (X14_entity_export_file_base_determines_view_and_tick
                  demoState (sampleState ∅ None) eq_refl)).
Defined.

End MoreFileNames.

(** ** The width of the path column and the filter *)

Section MoreNormalize.
Import Normalize.

Lemma fold_max_spec {A} (g : A -> nat) (l : list A) (m0 : nat) :
  let m := fold_left (fun m x => Nat.max m (g x)) l m0 in
  (m0 <= m)%nat
  /\ (forall x, In x l -> (g x <= m)%nat)
  /\ (m = m0 \/ exists x, In x l /\ g x = m).
Proof.
  revert m0. induction l as [|y l IH]; intros m0; simpl.
  - split; [lia |]. split; [tauto | auto].
  - destruct (IH (Nat.max m0 (g y))) as (H1 & H2 & H3).
    split; [lia |]. split.
    + intros x [<-|Hx]; [lia | apply H2, Hx].
    + destruct H3 as [H3|(x & Hx & Hg)].
      * destruct (Nat.max_spec m0 (g y)) as [[_ E]|[_ E]].
        -- right. exists y. split; [auto | lia].
        -- left. lia.
      * right. exists x. auto.
Qed.

(** X15. The width reserved for the path column is the length of the
    longest path key of the field list: no row of the normalised list has a
    longer key, and when there is a field one row's key has exactly that
    length. *)
Theorem X15_path_column_width_fits_every_row
  (tmp : list EntityFieldLi) (items : list WrappedEntityFieldLi) :
  normalize (Some tmp) = Some items ->
  (forall item, item ∈ items ->
     (String.length (joinedPath item) <= joinedPathMaxLen (Some tmp))%nat)
  /\ (tmp <> [] ->
      exists item, item ∈ items
        /\ String.length (joinedPath item) = joinedPathMaxLen (Some tmp)).
Proof.
  intros [= <-].
  assert (Hspec :
    (forall f, In f tmp ->
       (String.length (joinedPath (wrapField f)) <= joinedPathMaxLen (Some tmp))%nat)
    /\ (joinedPathMaxLen (Some tmp) = 0%nat
        \/ exists f, In f tmp
             /\ String.length (joinedPath (wrapField f))
                = joinedPathMaxLen (Some tmp))).
  { apply (fold_max_spec
             (fun f => String.length (joinedPath (wrapField f))) tmp 0). }
  destruct Hspec as [Hle Hmax].
  pose proof (sort_perm compareFn (map wrapField tmp)) as Hperm.
  split.
  - intros item Hitem. apply list_elem_of_In in Hitem.
    apply (Permutation_in _ (Permutation_sym Hperm)) in Hitem.
    apply in_map_iff in Hitem as (f & <- & Hf). apply Hle, Hf.
  - intros Hne.
    assert (Hex : exists f, In f tmp
              /\ String.length (joinedPath (wrapField f))
                 = joinedPathMaxLen (Some tmp)).
    { destruct Hmax as [Hzero|Hex]; [| exact Hex].
      destruct tmp as [|f tmp']; [congruence |]. exists f.
      split; [left; reflexivity |].
      pose proof (Hle f (or_introl eq_refl)) as Hf. lia. }
    destruct Hex as (f & Hf & Hlen). exists (wrapField f).
    split; [| exact Hlen].
    apply list_elem_of_In, (Permutation_in _ Hperm), in_map, Hf.
Qed.

Lemma X15_path_column_witness :
  (String.length (joinedPath (wrapField (mkEntityFieldLi [1%N; 2%N] [] "" "" "")))
   <= joinedPathMaxLen
        (Some [mkEntityFieldLi [7%N] [] "" "" "";
               mkEntityFieldLi [1%N; 2%N] [] "" "" ""]))%nat.
Proof.
  apply (proj1 (X15_path_column_width_fits_every_row
                  [mkEntityFieldLi [7%N] [] "" "" "";
                   mkEntityFieldLi [1%N; 2%N] [] "" "" ""]
                  _ eq_refl)).
  vm_compute. set_solver.
Defined.

(** X16. A filter update of the field list with a predicate keeps exactly
    the entries whose display name passes it, in the order they had, and
    applying the same predicate to the result changes nothing; without a
    predicate the filtered list is the list of entries. The update itself
    touches neither the selection nor the anchor (the pruning effect does
    that afterwards). The entity list filters on the entity name likewise. *)
Theorem X16_filter_update_keeps_matching_entries_in_order
  (searchCmpFn : string -> bool) (st : State) :
  (forall entries,
     let st' := EntityFieldList.handleFilterUpdate
                  (Some entries) (Some searchCmpFn) st in
     exists kept,
       filteredEntityFieldList st' = Some kept
       /\ sublist kept entries
       /\ (forall item, item ∈ kept
             <-> item ∈ entries /\ searchCmpFn (joinedNamedPath item) = true)
       /\ EntityFieldList.handleFilterUpdate (Some kept) (Some searchCmpFn) st'
          = st'
       /\ selectedFieldPaths st' = selectedFieldPaths st
       /\ lastSelectedIndexRef st' = lastSelectedIndexRef st)
  /\ (forall entries,
        filteredEntityFieldList
          (EntityFieldList.handleFilterUpdate entries None st) = entries)
  /\ (forall entries,
        exists kept,
          filteredEntityList
            (EntityList.handleFilterUpdate (Some entries) (Some searchCmpFn) st)
          = Some kept
          /\ sublist kept entries
          /\ (forall entity, entity ∈ kept
                <-> entity ∈ entries /\ searchCmpFn (name entity) = true))
  /\ (forall entries,
        filteredEntityList (EntityList.handleFilterUpdate entries None st)
        = entries).
Proof.
  assert (Hfilter : forall A (f : A -> bool) (l : list A) (x : A),
            x ∈ List.filter f l <-> x ∈ l /\ f x = true).
  { intros A f l x. rewrite !list_elem_of_In. apply List.filter_In. }
  assert (Hidem : forall A (f : A -> bool) (l : list A),
            List.filter f (List.filter f l) = List.filter f l).
  { intros A f l. induction l as [|x l IH]; simpl; [reflexivity |].
    destruct (f x) eqn:E; simpl; rewrite ?E, IH; reflexivity. }
  split; [| split; [| split]].
  - intros entries st'. eexists. split; [reflexivity |].
    split; [apply filter_sublist |]. split; [apply Hfilter |].
    split; [| split; reflexivity].
    unfold st', EntityFieldList.handleFilterUpdate, setFinalEntityFieldList.
    simpl. rewrite Hidem. reflexivity.
  - reflexivity.
  - intros entries. eexists. split; [reflexivity |].
    split; [apply filter_sublist | apply Hfilter].
  - reflexivity.
Qed.

End MoreNormalize.

(** ** Notices and navigation *)

Section Notices.
Import EntityFieldList.

(** X17. The normalised field list has one row per field the engine lists
    for the selected entity. The two notices never show together: the
    "select an entity" one shows exactly when no entity is selected, the
    "does not exist at the current tick" one exactly when an entity is
    selected for which the engine (in the current view) lists no field or
    gives no list. *)
Theorem X17_notices_are_exclusive_and_follow_the_engine (st : State) :
  let engineFields idx :=
    match demParser st with
    | None => None
    | Some p =>
        match demView st with
        | View_entities => listEntityFields p idx
        | View_baselineEntities => listBaselineEntityFields p idx
        end
    end in
  length (default [] (entityFieldList st))
  = match demSelectedEntityIndex st with
    | Some idx => length (default [] (engineFields idx))
    | None => 0%nat
    end
  /\ showSelectEntityNotice st && showMissingEntityNotice st = false
  /\ (showSelectEntityNotice st = true <-> demSelectedEntityIndex st = None)
  /\ (showMissingEntityNotice st = true
      <-> exists idx, demSelectedEntityIndex st = Some idx
                      /\ default [] (engineFields idx) = []).
Proof.
  intros engineFields.
  assert (Hlen : length (default [] (entityFieldList st))
    = match demSelectedEntityIndex st with
      | Some idx => length (default [] (engineFields idx))
      | None => 0%nat
      end).
  { unfold entityFieldList, engineFields.
    destruct (demSelectedEntityIndex st) as [idx|]; [| reflexivity].
    destruct (demParser st) as [p|]; [| reflexivity].
    destruct (demView st);
      [destruct (listEntityFields p idx) as [l|]
      | destruct (listBaselineEntityFields p idx) as [l|]];
      simpl; try reflexivity;
      rewrite <- (Permutation_length
                    (sort_perm Normalize.compareFn (map Normalize.wrapField l)));
      apply length_map. }
  split; [exact Hlen |].
  unfold showSelectEntityNotice, showMissingEntityNotice. rewrite Hlen.
  destruct (demSelectedEntityIndex st) as [idx|] eqn:Hsel.
  - rewrite bool_decide_eq_false_2 by discriminate. simpl.
    split; [reflexivity |]. split; [split; discriminate |].
    rewrite Nat.eqb_eq. split.
    + intros H0. exists idx. split; [reflexivity |].
      destruct (default [] (engineFields idx)); [reflexivity | discriminate].
    + intros (idx' & [= <-] & ->). reflexivity.
  - rewrite bool_decide_eq_true_2 by reflexivity. simpl.
    split; [reflexivity |]. split; [tauto |].
    split; [discriminate | intros (idx & Hidx & _); discriminate].
Qed.

End Notices.

Section MoreNavigation.
Import EntityFieldList.
Variable JsNumber : Type.
Variable unaryPlus : string -> JsNumber.
Variable isEHandleValid : JsNumber -> bool.
Variable eHandleToIndex : JsNumber -> N.

(** X18. A click without modifier on a row whose field is a valid handle
    always changes the selected entity (to the target, or to none when the
    target was selected). The effect on the selected entity therefore runs,
    and after it the field selection is empty and there is no anchor: the
    row selection made by that click does not survive the navigation. *)
Theorem X18_handle_navigation_discards_the_row_selection
  (run : UpdaterRun) (event : MouseEvent) (i : nat) (st : State)
  (l : list WrappedEntityFieldLi) (item : WrappedEntityFieldLi) :
  filteredEntityFieldList st = Some l -> l !! i = Some item ->
  shiftKey event = false -> ctrlKey event = false -> metaKey event = false ->
  handleValid JsNumber unaryPlus isEHandleValid item = true ->
  let st' := onClick JsNumber unaryPlus isEHandleValid eHandleToIndex
               run event i st in
  demSelectedEntityIndex st' <> demSelectedEntityIndex st
  /\ joinedNamedPath item ∈ selectedFieldPaths st'
  /\ selectedFieldPaths (resetEffect st') = ∅
  /\ lastSelectedIndexRef (resetEffect st') = None
  /\ demSelectedEntityIndex (resetEffect st') = demSelectedEntityIndex st'.
Proof.
  intros Hl Hi Hs Hc Hm Hv st'.
  assert (Hne : l <> []) by (intros ->; discriminate).
  assert (Hst' : st' = setDemSelectedEntityIndex
            (fun prev =>
               if bool_decide
                    (prev = Some (eHandleToIndex
                                    (unaryPlus (value (inner item)))))
               then None
               else Some (eHandleToIndex (unaryPlus (value (inner item)))))
            (updateSelection run event i (joinedNamedPath item) st)).
  { unfold st', onClick. rewrite Hl, Hi. unfold linkedEntIdx. rewrite Hv.
    unfold handleFieldClick. rewrite Hs, Hc, Hm. reflexivity. }
  rewrite Hst'. simpl. rewrite updateSelection_entity.
  split; [| split; [| split; [| split]]].
  - case_bool_decide as E; [rewrite E; discriminate | congruence].
  - rewrite (updateSelection_nonempty _ _ _ _ _ _ Hl Hne). simpl.
    unfold selectionUpdater. rewrite Hs, Hc, Hm. simpl.
    rewrite plain_updater. set_solver.
  - apply clearUpdater_empty.
  - reflexivity.
  - reflexivity.
Qed.

End MoreNavigation.

Lemma X18_handle_navigation_witness :
  selectedFieldPaths
    (EntityFieldList.resetEffect
       (EntityFieldList.onClick Z (fun _ => 42%Z) (fun _ => true) Z.to_N
          AtRender plainClick 1 (sampleState ∅ None)))
  = ∅.
Proof.
  exact (proj1 (proj2 (proj2
          (X18_handle_navigation_discards_the_row_selection
             Z (fun _ => 42%Z) (fun _ => true) Z.to_N AtRender plainClick 1
             (sampleState ∅ None) sampleRows
             (sampleField [1%N] ["c"; "d"] "CHandle< CBaseEntity >" "42")
             eq_refl eq_refl eq_refl eq_refl eq_refl eq_refl)))).
Defined.
